(** * The table comparator of [verification/compare.py]

    [compare_tables] takes two PyArrow tables, checks row counts and column
    sets, sorts both tables by the first non-nested common column and then
    compares the common columns one by one, collecting every difference in
    the list [issues]; it prints a narration and returns whether [issues] is
    empty.  [load_table] and [main] feed it from the paths of the command
    line.

    The development has three parts.
    - The fragment of Arrow and Python the function relies on: tables of
      [int64], [float64], [string], [bool], [list] and [struct] columns with
      nulls; [Table.sort_by] (stable, ascending, NaN after the numbers, nulls
      last, a struct key by its fields, no list key); [ChunkedArray.equals]; [pc.not_equal] and [pc.index];
      [to_pylist] and Python's [==] on the objects it yields.  A column is a
      list of cells, whatever its chunks.
    - The function, block by block and with the names of the source, in a
      monad whose state holds [issues] and the lines printed, and whose
      computations may raise.
    - The properties of the function, with the lemmas they rest on. *)

From Stdlib Require Import String Ascii ZArith Bool Arith Lia List.
From Stdlib Require Import Permutation Sorted SpecFloat OrdersEx RelationClasses.
Import ListNotations.

Local Open Scope string_scope.
Local Open Scope nat_scope.
Local Open Scope list_scope.

Set Warnings "-register-all".

(** ** Exceptions and results *)

Inductive exn : Type :=
| KeyError (name : string)
| ValueError (what : string)
| IndexError
| StopIteration
| ArrowInvalid (what : string)
| ArrowNotImplementedError (what : string)
| ArrowTypeError (what : string).

Inductive result (A : Type) : Type :=
| Ok (a : A)
| Raise (e : exn).

Arguments Ok {A} a.
Arguments Raise {A} e.

Definition rbind {A B : Type} (r : result A) (k : A -> result B) : result B :=
  match r with
  | Ok a => k a
  | Raise e => Raise e
  end.

Declare Scope result_scope.
Delimit Scope result_scope with result.
Notation "'let?' x ':=' r 'in' k" := (rbind r (fun x => k))
  (at level 10, x name, r at level 100, k at level 200) : result_scope.

Fixpoint mapM {A B : Type} (f : A -> result B) (l : list A) : result (list B) :=
  match l with
  | [] => Ok []
  | x :: xs =>
      (let? y := f x in
       let? ys := mapM f xs in
       Ok (y :: ys))%result
  end.

(** ** Arrow types and values *)

Inductive DataType : Type :=
| int64
| float64
| string_
| bool_
| list_ (value_type : DataType)
| struct (fields : list (string * DataType)).

(** [pa.types.is_nested] *)
Definition is_nested (t : DataType) : bool :=
  match t with
  | list_ _ | struct _ => true
  | _ => false
  end.

Fixpoint DataType_eqb (a b : DataType) {struct a} : bool :=
  match a, b with
  | int64, int64 => true
  | float64, float64 => true
  | string_, string_ => true
  | bool_, bool_ => true
  | list_ x, list_ y => DataType_eqb x y
  | struct fs, struct gs =>
      (fix fields_eqb (fs gs : list (string * DataType)) {struct fs} : bool :=
         match fs, gs with
         | [], [] => true
         | (n, t) :: fs', (m, u) :: gs' =>
             String.eqb n m && DataType_eqb t u && fields_eqb fs' gs'
         | _, _ => false
         end) fs gs
  | _, _ => false
  end.

(** A cell of a column.  [Null] is the null of any type; a [float64] cell is
    an IEEE 754 binary64 number. *)
Inductive Value : Type :=
| Null
| Int (z : Z)
| Double (f : spec_float)
| Str (s : string)
| Bool (b : bool)
| List (items : list Value)
| Struct (fields : list (string * Value)).

Definition nan : spec_float := S754_nan.

Fixpoint forall2b {A B : Type} (p : A -> B -> bool) (l : list A) (m : list B) : bool :=
  match l, m with
  | [], [] => true
  | x :: l', y :: m' => p x y && forall2b p l' m'
  | _, _ => false
  end.

(** Equality of two cells as [Array.equals] has it: nulls equal nulls, valid
    cells are equal when their values are, and floating-point values are
    compared with [==], so that a NaN differs from every value. *)
Fixpoint value_equals (a b : Value) {struct a} : bool :=
  match a, b with
  | Null, Null => true
  | Int x, Int y => Z.eqb x y
  | Double f, Double g => SFeqb f g
  | Str s, Str t => String.eqb s t
  | Bool x, Bool y => Bool.eqb x y
  | List xs, List ys =>
      (fix items_equal (xs ys : list Value) {struct xs} : bool :=
         match xs, ys with
         | [], [] => true
         | x :: xs', y :: ys' => value_equals x y && items_equal xs' ys'
         | _, _ => false
         end) xs ys
  | Struct fs, Struct gs =>
      (fix fields_equal (fs gs : list (string * Value)) {struct fs} : bool :=
         match fs, gs with
         | [], [] => true
         | (k, v) :: fs', (n, w) :: gs' =>
             String.eqb k n && value_equals v w && fields_equal fs' gs'
         | _, _ => false
         end) fs gs
  | _, _ => false
  end.

(** ** Python objects *)

Inductive PyObj : Type :=
| PyNone
| PyInt (z : Z)
| PyFloat (f : spec_float)
| PyStr (s : string)
| PyBool (b : bool)
| PyList (items : list PyObj)
| PyDict (entries : list (string * PyObj)).

(** [Scalar.as_py] *)
Fixpoint as_py (v : Value) : PyObj :=
  match v with
  | Null => PyNone
  | Int z => PyInt z
  | Double f => PyFloat f
  | Str s => PyStr s
  | Bool b => PyBool b
  | List items => PyList (map as_py items)
  | Struct fields => PyDict (map (fun '(k, w) => (k, as_py w)) fields)
  end.

Fixpoint distinct (l : list string) : bool :=
  match l with
  | [] => true
  | x :: l' => negb (existsb (String.eqb x) l') && distinct l'
  end.

(** A struct converts to a dict only when its field names are distinct;
    [StructScalar.as_py] raises ValueError otherwise. *)
Fixpoint convertible (v : Value) : bool :=
  match v with
  | List items => forallb convertible items
  | Struct fields =>
      distinct (map fst fields)
      && forallb (fun '(_, w) => convertible w) fields
  | _ => true
  end.

Fixpoint assoc {A : Type} (k : string) (d : list (string * A)) : option A :=
  match d with
  | [] => None
  | (k', v) :: d' => if String.eqb k k' then Some v else assoc k d'
  end.

(** The integer a float denotes, when it denotes one. *)
Definition float_to_Z (f : spec_float) : option Z :=
  match f with
  | S754_zero _ => Some 0%Z
  | S754_finite s m e =>
      let sign := if s then (-1)%Z else 1%Z in
      if (0 <=? e)%Z then Some (sign * (Zpos m * 2 ^ e))%Z
      else
        let d := (2 ^ (- e))%Z in
        if (Zpos m mod d =? 0)%Z then Some (sign * (Zpos m / d))%Z else None
  | _ => None
  end.

Inductive number : Type :=
| NumZ (z : Z)
| NumF (f : spec_float).

(** [bool] is a subclass of [int]: [True == 1]. *)
Definition py_number (o : PyObj) : option number :=
  match o with
  | PyInt z => Some (NumZ z)
  | PyBool b => Some (NumZ (if b then 1 else 0)%Z)
  | PyFloat f => Some (NumF f)
  | _ => None
  end.

Definition number_eq (a b : number) : bool :=
  match a, b with
  | NumZ x, NumZ y => Z.eqb x y
  | NumF f, NumF g => SFeqb f g
  | NumZ x, NumF f | NumF f, NumZ x =>
      match float_to_Z f with
      | Some y => Z.eqb x y
      | None => false
      end
  end.

(** Python's [==] on the objects [to_pylist] produces. *)
Fixpoint py_eq (a b : PyObj) {struct a} : bool :=
  match a, b with
  | PyNone, PyNone => true
  | PyStr s, PyStr t => String.eqb s t
  | PyList xs, PyList ys =>
      (fix items_eq (xs ys : list PyObj) {struct xs} : bool :=
         match xs, ys with
         | [], [] => true
         | x :: xs', y :: ys' => py_eq x y && items_eq xs' ys'
         | _, _ => false
         end) xs ys
  | PyDict d, PyDict e =>
      Nat.eqb (length d) (length e)
      && (fix entries_eq (d : list (string * PyObj)) {struct d} : bool :=
            match d with
            | [] => true
            | (k, v) :: d' =>
                match assoc k e with
                | Some w => py_eq v w
                | None => false
                end && entries_eq d'
            end) d
  | _, _ =>
      match py_number a, py_number b with
      | Some x, Some y => number_eq x y
      | _, _ => false
      end
  end.

(** ** Columns and tables *)

Record Column : Type := {
  name : string;
  dtype : DataType;
  values : list Value
}.

Record Table : Type := {
  num_rows : nat;
  columns : list Column
}.

Definition column_names (t : Table) : list string := map name (columns t).
Definition num_columns (t : Table) : nat := length (columns t).

Definition named (n : string) (t : Table) : list Column :=
  filter (fun c => String.eqb (name c) n) (columns t).

(** [table[name]]: KeyError unless exactly one column has the name. *)
Definition column (t : Table) (n : string) : result Column :=
  match named n t with
  | [c] => Ok c
  | _ => Raise (KeyError n)
  end.

(** [table.schema.field(name).type] *)
Definition field_type (t : Table) (n : string) : result DataType :=
  match named n t with
  | [c] => Ok (dtype c)
  | _ => Raise (KeyError n)
  end.

(** The Table contract: column names are unique and every column holds
    [num_rows] cells. *)
Definition well_formed (t : Table) : Prop :=
  NoDup (column_names t)
  /\ Forall (fun c => length (values c) = num_rows t) (columns t).

(** ** Sorting a table

    [Table.sort_by(name)] is [take] of [pc.sort_indices] on the key column:
    a stable ascending sort with NaNs after the numbers and nulls last.  A
    key of a struct type is sorted by its fields, the first one counting
    most; a key of a list type, or with a list among its fields, is refused
    with ArrowTypeError. *)

Definition rank (v : Value) : nat :=
  match v with
  | Null => 2
  | Double S754_nan => 1
  | _ => 0
  end.

Definition value_lt (a b : Value) : bool :=
  match a, b with
  | Int x, Int y => (x <? y)%Z
  | Double f, Double g => SFltb f g
  | Str s, Str t => String.ltb s t
  | Bool x, Bool y => negb x && y
  | _, _ => false
  end.

Definition key_lt (a b : Value) : bool :=
  (rank a <? rank b) || ((rank a =? rank b) && value_lt a b).

Fixpoint insert_key (x : nat * Value) (l : list (nat * Value)) : list (nat * Value) :=
  match l with
  | [] => [x]
  | y :: l' => if key_lt (snd y) (snd x) then y :: insert_key x l' else x :: l
  end.

Definition enumerate {A : Type} (l : list A) : list (nat * A) :=
  combine (seq 0 (length l)) l.

Definition sort_indices (keys : list Value) : list nat :=
  map fst (fold_right insert_key [] (enumerate keys)).

Definition take_values (vs : list Value) (indices : list nat) : result (list Value) :=
  mapM (fun i => match nth_error vs i with
                 | Some v => Ok v
                 | None => Raise IndexError
                 end) indices.

Definition take_column (indices : list nat) (c : Column) : result Column :=
  (let? vs := take_values (values c) indices in
   Ok {| name := name c; dtype := dtype c; values := vs |})%result.

Definition take (t : Table) (indices : list nat) : result Table :=
  (let? cols := mapM (take_column indices) (columns t) in
   Ok {| num_rows := length indices; columns := cols |})%result.

(** The cells of a field of a struct column; the fields of a null struct are
    null. *)
Definition field_cells (n : string) (keys : list Value) : list Value :=
  map (fun v => match v with
                | Struct fields => match assoc n fields with
                                   | Some w => w
                                   | None => Null
                                   end
                | _ => Null
                end) keys.

(** The rows in the order [order], sorted again by [keys]: rows that tie
    stay as [order] has them. *)
Definition resort (keys : list Value) (order : list nat) : list nat :=
  map (fun i => nth i order 0)
      (sort_indices (map (fun i => nth i keys Null) order)).

(** The fields of a struct key are sorted by from the last to the first. *)
Fixpoint sort_order (ty : DataType) (keys : list Value) (order : list nat)
    {struct ty} : result (list nat) :=
  match ty with
  | list_ _ => Raise (ArrowTypeError "Sorting not supported for type list")
  | struct fields =>
      fold_right (fun '(n, field_ty) sorted_by_rest =>
                    (let? order' := sorted_by_rest in
                     sort_order field_ty (field_cells n keys) order')%result)
                 (Ok order) fields
  | _ => Ok (resort keys order)
  end.

Definition sort_key_indices (ty : DataType) (keys : list Value) : result (list nat) :=
  sort_order ty keys (seq 0 (length keys)).

Definition sort_by (t : Table) (key : string) : result Table :=
  match named key t with
  | [c] => (let? indices := sort_key_indices (dtype c) (values c) in
            take t indices)%result
  | [] => Raise (ArrowInvalid "No match for FieldRef")
  | _ => Raise (ArrowInvalid "Multiple matches for FieldRef")
  end.

(** ** Comparing columns *)

(** [ChunkedArray.equals] *)
Definition equals (col1 col2 : Column) : bool :=
  DataType_eqb (dtype col1) (dtype col2)
  && forall2b value_equals (values col1) (values col2).

(** The type at which [pc.not_equal] compares two columns whose first one is
    not nested: equal types, or [float64] for an [int64] and a [float64]. *)
Definition common_type (t1 t2 : DataType) : option DataType :=
  match t1, t2 with
  | int64, int64 => Some int64
  | float64, float64 | int64, float64 | float64, int64 => Some float64
  | string_, string_ => Some string_
  | bool_, bool_ => Some bool_
  | _, _ => None
  end.

(** The implicit cast of an argument is a safe cast: an integer that is not
    within [-2^53, 2^53] is refused. *)
Definition implicit_cast (to : DataType) (v : Value) : result Value :=
  match to, v with
  | float64, Int z =>
      if (Z.abs z <=? 2 ^ 53)%Z
      then Ok (Double (binary_normalize 53 1024 z 0 false))
      else Raise (ArrowInvalid "Integer value not in range")
  | _, _ => Ok v
  end.

Definition cell_not_equal (a b : Value) : option bool :=
  match a, b with
  | Null, _ | _, Null => None
  | _, _ => Some (negb (value_equals a b))
  end.

Fixpoint map2 {A B C : Type} (f : A -> B -> C) (l : list A) (m : list B) : list C :=
  match l, m with
  | x :: l', y :: m' => f x y :: map2 f l' m'
  | _, _ => []
  end.

(** [pc.not_equal]: a boolean column, null where either argument is. *)
Definition pc_not_equal (col1 col2 : Column) : result (list (option bool)) :=
  match common_type (dtype col1) (dtype col2) with
  | None => Raise (ArrowNotImplementedError "no kernel matching input types")
  | Some t =>
      if negb (length (values col1) =? length (values col2))
      then Raise (ArrowInvalid "Array arguments must all be the same length")
      else
        (let? v1 := mapM (implicit_cast t) (values col1) in
         let? v2 := mapM (implicit_cast t) (values col2) in
         Ok (map2 cell_not_equal v1 v2))%result
  end.

(** [pc.index(mask, True).as_py()]: the first position holding true, or -1. *)
Fixpoint index_from (i : Z) (mask : list (option bool)) : Z :=
  match mask with
  | [] => (-1)%Z
  | Some true :: _ => i
  | _ :: mask' => index_from (i + 1)%Z mask'
  end.

Definition pc_index (mask : list (option bool)) : Z := index_from 0%Z mask.

(** [col.to_pylist()]; [combine_chunks] changes the chunk layout only. *)
Definition to_pylist (col : Column) : result (list PyObj) :=
  if forallb convertible (values col)
  then Ok (map as_py (values col))
  else Raise (ValueError "duplicate field names").

Definition py_list_eq (py1 py2 : list PyObj) : bool := forall2b py_eq py1 py2.

(** [next(i for i in range(len(py1)) if py1[i] != py2[i])], counting from [i] *)
Fixpoint first_diff (i : nat) (py1 py2 : list PyObj) : result nat :=
  match py1 with
  | [] => Raise StopIteration
  | x :: py1' =>
      match py2 with
      | [] => Raise IndexError
      | y :: py2' =>
          if negb (py_eq x y) then Ok i else first_diff (S i) py1' py2'
      end
  end.

(** ** Sets of column names *)

Fixpoint mem (x : string) (l : list string) : bool :=
  match l with
  | [] => false
  | y :: l' => String.eqb x y || mem x l'
  end.

(** [set(names)], kept as a duplicate-free list *)
Fixpoint set_ (l : list string) : list string :=
  match l with
  | [] => []
  | x :: l' => if mem x l' then set_ l' else x :: set_ l'
  end.

Definition difference (a b : list string) : list string :=
  filter (fun x => negb (mem x b)) a.

Definition intersection (a b : list string) : list string :=
  filter (fun x => mem x b) a.

Fixpoint insert_name (x : string) (l : list string) : list string :=
  match l with
  | [] => [x]
  | y :: l' => if String.leb x y then x :: l else y :: insert_name x l'
  end.

(** [sorted(names)] *)
Definition sorted (l : list string) : list string :=
  fold_right insert_name [] l.

Definition nonempty {A : Type} (l : list A) : bool :=
  match l with
  | [] => false
  | _ => true
  end.

(** ** Issues and narration *)

(** The text of an issue, with the interpolated fields of its f-string as
    arguments. *)
Inductive Message : Type :=
| RowCountMismatch (label1 : string) (rows1 : nat) (label2 : string) (rows2 : nat)
| AdditionalColumns (label : string) (cols : list string)
| NoSortableColumn
| SortingError (e : exn)
| DifferencesAt (col_name : string) (first_diff_idx : Z)
| Differences (col_name : string).

(** One entry of [issues]: the dict with keys "type" and "message". *)
Record Issue : Type := {
  type : string;
  message : Message
}.

(** The lines [print] writes. *)
Inductive Line : Type :=
| Rule
| Heading (title : string)
| Counts (label : string) (rows cols : nat)
| SortingBy (sort_column : string)
| ComparingCommon (n : nat)
| Checking (col_name : string)
| PrintMISMATCH
| PrintOK
| Identical
| Found (n : nat)
| Item (idx : nat) (issue : Issue).

(** Which of the two comparisons of lines 99-104 a column goes through. *)
Inductive Mode : Type :=
| PythonObjects
| ArrowEquals.

Definition mode_of (col_type : DataType) : Mode :=
  if is_nested col_type then PythonObjects else ArrowEquals.

(** ** The monad of [compare_tables]

    The state is the list [issues], the lines printed so far and, as a
    record of the run that is not part of its output, the comparison each
    checked column went through.  An exception leaves the state as it was when
    raised. *)

Record State : Type := {
  issues : list Issue;
  stdout : list Line;
  modes : list (string * Mode)
}.

Definition initial : State := {| issues := []; stdout := []; modes := [] |}.

Definition M (A : Type) : Type := State -> result A * State.

Definition ret {A : Type} (a : A) : M A := fun s => (Ok a, s).

Definition bind {A B : Type} (m : M A) (k : A -> M B) : M B :=
  fun s =>
    match m s with
    | (Ok a, s') => k a s'
    | (Raise e, s') => (Raise e, s')
    end.

Definition lift {A : Type} (r : result A) : M A := fun s => (r, s).

Definition try_except {A : Type} (body : M A) (handler : exn -> M A) : M A :=
  fun s =>
    match body s with
    | (Ok a, s') => (Ok a, s')
    | (Raise e, s') => handler e s'
    end.

Definition issues_append (i : Issue) : M unit :=
  fun s => (Ok tt, {| issues := issues s ++ [i]; stdout := stdout s; modes := modes s |}).

Definition print (l : Line) : M unit :=
  fun s => (Ok tt, {| issues := issues s; stdout := stdout s ++ [l]; modes := modes s |}).

Definition record_mode (col_name : string) (m : Mode) : M unit :=
  fun s => (Ok tt, {| issues := issues s; stdout := stdout s;
                      modes := modes s ++ [(col_name, m)] |}).

Definition get_issues : M (list Issue) := fun s => (Ok (issues s), s).

(** [issues = []] *)
Definition new_issues : M unit :=
  fun s => (Ok tt, {| issues := []; stdout := stdout s; modes := modes s |}).

Definition when (b : bool) (m : M unit) : M unit := if b then m else ret tt.

Declare Scope monad_scope.
Delimit Scope monad_scope with monad.
Notation "x <- m ;; k" := (bind m (fun x => k))
  (at level 61, m at next level, right associativity) : monad_scope.
Notation "m ;; k" := (bind m (fun _ => k))
  (at level 61, right associativity) : monad_scope.
Local Open Scope monad_scope.

Fixpoint for_each {A : Type} (l : list A) (body : A -> M unit) : M unit :=
  match l with
  | [] => ret tt
  | x :: l' => body x ;; for_each l' body
  end.

(** ** [compare_tables] *)

(** Lines 36-40 *)
Definition summary (table1 table2 : Table) (label1 label2 : string) : M unit :=
  print Rule ;;
  print (Heading "COMPARISON SUMMARY") ;;
  print Rule ;;
  print (Counts label1 (num_rows table1) (num_columns table1)) ;;
  print (Counts label2 (num_rows table2) (num_columns table2)).

(** Lines 42-47 *)
Definition check_row_counts (table1 table2 : Table) (label1 label2 : string) : M unit :=
  when (negb (num_rows table1 =? num_rows table2))
    (issues_append
       {| type := "row_count";
          message := RowCountMismatch label1 (num_rows table1)
                                      label2 (num_rows table2) |}).

Definition cols_only_in_1 (table1 table2 : Table) : list string :=
  difference (set_ (column_names table1)) (set_ (column_names table2)).

Definition cols_only_in_2 (table1 table2 : Table) : list string :=
  difference (set_ (column_names table2)) (set_ (column_names table1)).

Definition common_cols (table1 table2 : Table) : list string :=
  intersection (set_ (column_names table1)) (set_ (column_names table2)).

(** Lines 49-67 *)
Definition check_columns (table1 table2 : Table) (label1 label2 : string) : M unit :=
  when (nonempty (cols_only_in_1 table1 table2))
    (issues_append
       {| type := "columns";
          message := AdditionalColumns label1 (sorted (cols_only_in_1 table1 table2)) |}) ;;
  when (nonempty (cols_only_in_2 table1 table2))
    (issues_append
       {| type := "columns";
          message := AdditionalColumns label2 (sorted (cols_only_in_2 table1 table2)) |}).

(** Lines 72-77: the first name whose column of [table1] is not nested. *)
Fixpoint find_sort_column (table1 : Table) (names : list string) : result (option string) :=
  match names with
  | [] => Ok None
  | col_name :: names' =>
      (let? col_type := field_type table1 col_name in
       if negb (is_nested col_type) then Ok (Some col_name)
       else find_sort_column table1 names')%result
  end.

(** Lines 99-104 *)
Definition columns_equal (col_type : DataType) (col1 col2 : Column) : result bool :=
  if is_nested col_type then
    (let? py1 := to_pylist col1 in
     let? py2 := to_pylist col2 in
     Ok (py_list_eq py1 py2))%result
  else Ok (equals col1 col2).

(** Lines 111-116 *)
Definition first_difference (col_type : DataType) (col1 col2 : Column) : result Z :=
  if is_nested col_type then
    (let? py1 := to_pylist col1 in
     let? py2 := to_pylist col2 in
     let? i := first_diff 0 py1 py2 in
     Ok (Z.of_nat i))%result
  else
    (let? mask := pc_not_equal col1 col2 in
     Ok (pc_index mask))%result.

(** Lines 92-127: the body of the loop over the common columns. *)
Definition compare_column (table1_sorted table2_sorted : Table) (col_name : string) : M unit :=
  print (Checking col_name) ;;
  col1 <- lift (column table1_sorted col_name) ;;
  col2 <- lift (column table2_sorted col_name) ;;
  col_type <- lift (field_type table1_sorted col_name) ;;
  record_mode col_name (mode_of col_type) ;;
  columns_equal <- lift (columns_equal col_type col1 col2) ;;
  if negb columns_equal then
    print PrintMISMATCH ;;
    try_except
      (first_diff_idx <- lift (first_difference col_type col1 col2) ;;
       issues_append {| type := "column_values";
                        message := DifferencesAt col_name first_diff_idx |})
      (fun _ =>
         issues_append {| type := "column_values";
                          message := Differences col_name |})
  else print PrintOK.

(** Lines 86-132 *)
Definition compare_sorted (table1 table2 : Table) (sort_column : string) : M unit :=
  try_except
    (table1_sorted <- lift (sort_by table1 sort_column) ;;
     table2_sorted <- lift (sort_by table2 sort_column) ;;
     print (ComparingCommon (length (common_cols table1 table2))) ;;
     for_each (sorted (common_cols table1 table2))
       (compare_column table1_sorted table2_sorted))
    (fun e => issues_append {| type := "sorting"; message := SortingError e |}).

(** Lines 69-132 *)
Definition compare_common (table1 table2 : Table) : M unit :=
  when (nonempty (common_cols table1 table2)
        && (0 <? num_rows table1) && (0 <? num_rows table2))
    (sort_column <- lift (find_sort_column table1 (sorted (common_cols table1 table2))) ;;
     match sort_column with
     | None => issues_append {| type := "sorting"; message := NoSortableColumn |}
     | Some sort_column =>
         print (SortingBy sort_column) ;;
         compare_sorted table1 table2 sort_column
     end).

Fixpoint number_from {A : Type} (start : nat) (l : list A) : list (nat * A) :=
  match l with
  | [] => []
  | x :: l' => (start, x) :: number_from (S start) l'
  end.

(** Lines 134-150 *)
Definition final_report : M bool :=
  print Rule ;;
  print (Heading "FINAL REPORT") ;;
  print Rule ;;
  found <- get_issues ;;
  if negb (nonempty found) then
    print Identical ;;
    ret true
  else
    print (Found (length found)) ;;
    for_each (number_from 1 found) (fun '(idx, issue) => print (Item idx issue)) ;;
    print Rule ;;
    ret false.

Definition compare_tables (table1 table2 : Table) (label1 label2 : string) : M bool :=
  new_issues ;;
  summary table1 table2 label1 label2 ;;
  check_row_counts table1 table2 label1 label2 ;;
  check_columns table1 table2 label1 label2 ;;
  compare_common table1 table2 ;;
  final_report.

(** A call of [compare_tables], with nothing printed before it *)
Definition run (table1 table2 : Table) (label1 label2 : string) : result bool * State :=
  compare_tables table1 table2 label1 label2 initial.

(** A table from its columns, as [pa.table] builds it. *)
Definition table_of (cols : list Column) : Table :=
  {| num_rows := match cols with [] => 0 | c :: _ => length (values c) end;
     columns := cols |}.

(** ** [load_table] and [main]

    The file system and the two readers are a parameter of the model; they
    answer the same during one call of [main]. *)

(** What a path leads to, links followed: [Path.exists], [Path.is_file] and
    [Path.is_dir] are read off it. *)
Inductive Entry : Type :=
| Absent
| RegularFile
| Directory
| Special.

Definition exists_ (e : Entry) : bool :=
  match e with Absent => false | _ => true end.

Definition is_file (e : Entry) : bool :=
  match e with RegularFile => true | _ => false end.

Definition is_dir (e : Entry) : bool :=
  match e with Directory => true | _ => false end.

(** The file system and the two readers, as [load_table] meets them:
    [suffix] is [Path(file_path).suffix], [read_table] is [pq.read_table] and
    [load_from_disk] is [load_from_disk(file_path).data.table]. *)
Record World : Type := {
  entry : string -> Entry;
  suffix : string -> string;
  read_table : string -> result Table;
  load_from_disk : string -> result Table
}.

(** What [load_table] raises *)
Inductive load_exn : Type :=
| FileNotFoundError (file_path : string)
| CouldNotLoad (file_path : string) (cause : exn)
| UnsupportedFormat (file_path : string)
| FromReader (e : exn).

Inductive loaded : Type :=
| Loaded (table : Table)
| NotLoaded (e : load_exn).

(** Lines 10-29 *)
Definition load_table (w : World) (file_path : string) : loaded :=
  let path := entry w file_path in
  if negb (exists_ path) then NotLoaded (FileNotFoundError file_path)
  else if is_file path && String.eqb (suffix w file_path) ".parquet" then
    match read_table w file_path with
    | Ok table => Loaded table
    | Raise e => NotLoaded (FromReader e)
    end
  else if is_dir path then
    match load_from_disk w file_path with
    | Ok table => Loaded table
    | Raise e => NotLoaded (CouldNotLoad file_path e)
    end
  else NotLoaded (UnsupportedFormat file_path).

(** The lines [main] prints, those of [compare_tables] among them *)
Inductive MainLine : Type :=
| LoadingFirst (file1 : string)
| LoadingSecond (file2 : string)
| Compared (l : Line).

(** How [main] ends: it returns [None], or an exception leaves it. *)
Inductive Outcome : Type :=
| Returned
| LoadRaised (e : load_exn)
| CompareRaised (e : exn).

(** Lines 178-186, for the two paths that [parse_args] found *)
Definition main (w : World) (file1 file2 : string) : Outcome * list MainLine :=
  let out := [LoadingFirst file1] in
  match load_table w file1 with
  | NotLoaded e => (LoadRaised e, out)
  | Loaded table1 =>
      let out := out ++ [LoadingSecond file2] in
      match load_table w file2 with
      | NotLoaded e => (LoadRaised e, out)
      | Loaded table2 =>
          let '(r, st) := run table1 table2 file1 file2 in
          (match r with Ok _ => Returned | Raise e => CompareRaised e end,
           out ++ map Compared (stdout st))
      end
  end.

(** * The vocabulary of the properties *)

(** The state [s] followed by what the state [d] holds *)
Definition extend (s d : State) : State :=
  {| issues := issues s ++ issues d;
     stdout := stdout s ++ stdout d;
     modes := modes s ++ modes d |}.

(** Every block of [compare_tables] but [final_report] only appends to the
    state: run from any state, it does what it does from [initial], after
    what is there already. *)
Definition framed {A : Type} (m : M A) : Prop :=
  forall s, m s = (fst (m initial), extend s (snd (m initial))).

Definition before_comparison (table1 table2 : Table) (label1 label2 : string) : M unit :=
  summary table1 table2 label1 label2 ;;
  check_row_counts table1 table2 label1 label2 ;;
  check_columns table1 table2 label1 label2.

Definition row_count_issue (t1 t2 : Table) (l1 l2 : string) : Issue :=
  {| type := "row_count";
     message := RowCountMismatch l1 (num_rows t1) l2 (num_rows t2) |}.

Definition columns_issue (label : string) (extra : list string) : Issue :=
  {| type := "columns"; message := AdditionalColumns label (sorted extra) |}.

Definition only_if {A : Type} (b : bool) (x : A) : list A := if b then [x] else [].

Definition schema_issues (t1 t2 : Table) (l1 l2 : string) : list Issue :=
  only_if (negb (num_rows t1 =? num_rows t2)) (row_count_issue t1 t2 l1 l2)
  ++ only_if (nonempty (cols_only_in_1 t1 t2)) (columns_issue l1 (cols_only_in_1 t1 t2))
  ++ only_if (nonempty (cols_only_in_2 t1 t2)) (columns_issue l2 (cols_only_in_2 t1 t2)).

Definition summary_lines (t1 t2 : Table) (l1 l2 : string) : list Line :=
  [Rule; Heading "COMPARISON SUMMARY"; Rule;
   Counts l1 (num_rows t1) (num_columns t1);
   Counts l2 (num_rows t2) (num_columns t2)].

Definition report_lines (found : list Issue) : list Line :=
  [Rule; Heading "FINAL REPORT"; Rule]
  ++ if nonempty found
     then Found (length found)
          :: map (fun '(idx, issue) => Item idx issue) (number_from 1 found) ++ [Rule]
     else [Identical].

Definition pre_state (t1 t2 : Table) (l1 l2 : string) : State :=
  {| issues := schema_issues t1 t2 l1 l2;
     stdout := summary_lines t1 t2 l1 l2;
     modes := [] |}.

Definition only_issues (found : list Issue) : State :=
  {| issues := found; stdout := []; modes := [] |}.

Definition only_lines (lines : list Line) : State :=
  {| issues := []; stdout := lines; modes := [] |}.

Definition sorting_error (e : exn) : Issue :=
  {| type := "sorting"; message := SortingError e |}.

Definition no_sortable_column : Issue :=
  {| type := "sorting"; message := NoSortableColumn |}.

Definition rows_and_common (t1 t2 : Table) : bool :=
  nonempty (common_cols t1 t2) && (0 <? num_rows t1) && (0 <? num_rows t2).

Definition loop (s1 s2 : Table) (cols : list string) : M unit :=
  for_each cols (compare_column s1 s2).

Definition column_values_issue (col_name : string) (col_type : DataType)
    (col1 col2 : Column) : Issue :=
  {| type := "column_values";
     message := match first_difference col_type col1 col2 with
                | Ok first_diff_idx => DifferencesAt col_name first_diff_idx
                | Raise _ => Differences col_name
                end |}.

Definition checked (c : string) (ty : DataType) (verdict : list Line)
    (found : list Issue) : State :=
  {| issues := found; stdout := Checking c :: verdict; modes := [(c, mode_of ty)] |}.

(** The shapes lines 69-132 can take, and the run with them. *)
Inductive comparison_shape (t1 t2 : Table) :
    list Issue -> list Line -> list (string * Mode) -> Prop :=
| shape_skipped :
    rows_and_common t1 t2 = false ->
    comparison_shape t1 t2 [] [] []
| shape_unsortable :
    rows_and_common t1 t2 = true ->
    find_sort_column t1 (sorted (common_cols t1 t2)) = Ok None ->
    comparison_shape t1 t2 [no_sortable_column] [] []
| shape_sort_failed k e :
    rows_and_common t1 t2 = true ->
    find_sort_column t1 (sorted (common_cols t1 t2)) = Ok (Some k) ->
    (sort_by t1 k = Raise e
     \/ exists s1, sort_by t1 k = Ok s1 /\ sort_by t2 k = Raise e) ->
    comparison_shape t1 t2 [sorting_error e] [SortingBy k] []
| shape_compared k s1 s2 r d :
    rows_and_common t1 t2 = true ->
    find_sort_column t1 (sorted (common_cols t1 t2)) = Ok (Some k) ->
    sort_by t1 k = Ok s1 ->
    sort_by t2 k = Ok s2 ->
    loop s1 s2 (sorted (common_cols t1 t2)) initial = (r, d) ->
    comparison_shape t1 t2
      (issues d ++ match r with Ok _ => [] | Raise e => [sorting_error e] end)
      (SortingBy k :: ComparingCommon (length (common_cols t1 t2)) :: stdout d)
      (modes d).

Inductive run_shape (t1 t2 : Table) (l1 l2 : string) : result bool * State -> Prop :=
| shape_raised e :
    rows_and_common t1 t2 = true ->
    find_sort_column t1 (sorted (common_cols t1 t2)) = Raise e ->
    run_shape t1 t2 l1 l2 (Raise e, pre_state t1 t2 l1 l2)
| shape_reported found lines ms :
    comparison_shape t1 t2 found lines ms ->
    run_shape t1 t2 l1 l2
      (Ok (negb (nonempty (schema_issues t1 t2 l1 l2 ++ found))),
       {| issues := schema_issues t1 t2 l1 l2 ++ found;
          stdout := summary_lines t1 t2 l1 l2 ++ lines
                    ++ report_lines (schema_issues t1 t2 l1 l2 ++ found);
          modes := ms |}).

(** The order on names *)

Definition name_lt (a b : string) : Prop := String.ltb a b = true.
Definition name_le (a b : string) : Prop := String.leb a b = true.

(** Every name of the list comes strictly after [x]. *)
Definition all_after (x : string) (l : list string) : Prop :=
  Forall (name_lt x) l.

Inductive ascending : list string -> Prop :=
| ascending_nil : ascending []
| ascending_cons x l : all_after x l -> ascending l -> ascending (x :: l).

Definition scalar_in (t : Table) (c : string) : Prop :=
  exists ty, field_type t c = Ok ty /\ is_nested ty = false.

Definition nested_in (t : Table) (c : string) : Prop :=
  exists ty, field_type t c = Ok ty /\ is_nested ty = true.

(** The types of the keys that [sort_by] accepts *)
Fixpoint sortable (ty : DataType) : bool :=
  match ty with
  | list_ _ => false
  | struct fields => forallb (fun '(_, field_ty) => sortable field_ty) fields
  | _ => true
  end.

Definition sortable_in (t : Table) (c : string) : Prop :=
  exists ty, field_type t c = Ok ty /\ sortable ty = true.

(** A column-value issue names the column. *)
Definition column_reported (c : string) (found : list Issue) : Prop :=
  exists i, In i found
            /\ type i = "column_values"
            /\ (message i = Differences c \/ exists idx, message i = DifferencesAt c idx).

(** What the loop does for one column that it compares to the end. *)
Definition compared (s1 s2 : Table) (c : string) (equal : bool) : Prop :=
  exists col1 col2,
    column s1 c = Ok col1 /\ column s2 c = Ok col2
    /\ columns_equal (dtype col1) col1 col2 = Ok equal.

Definition loop_line (cols : list string) (l : Line) : Prop :=
  (exists c, l = Checking c /\ In c cols) \/ l = PrintOK \/ l = PrintMISMATCH.

Definition loop_issue (cols : list string) (i : Issue) : Prop :=
  type i = "column_values"
  /\ exists c, In c cols
       /\ (message i = Differences c \/ exists idx, message i = DifferencesAt c idx).

Definition loop_mode (s1 : Table) (cols : list string) (cm : string * Mode) : Prop :=
  In (fst cm) cols
  /\ exists ty, field_type s1 (fst cm) = Ok ty /\ snd cm = mode_of ty.

(** The number of issues of a given type *)
Definition count_type (ty : string) (found : list Issue) : nat :=
  length (filter (fun i => String.eqb (type i) ty) found).

Definition narrates (l : Line) : bool :=
  match l with
  | Checking _ | SortingBy _ => true
  | _ => false
  end.

Definition well_formedb (t : Table) : bool :=
  distinct (column_names t)
  && forallb (fun c => length (values c) =? num_rows t) (columns t).

(** [k] is the first common column, in alphabetical order, that is not
    nested in [t1]. *)
Definition first_scalar_common (t1 t2 : Table) (k : string) : Prop :=
  In k (column_names t1) /\ In k (column_names t2)
  /\ scalar_in t1 k
  /\ forall c, In c (column_names t1) -> In c (column_names t2) ->
               name_lt c k -> nested_in t1 c.

(** A column of the sorted table next to the column it comes from. *)
Definition taken (indices : list nat) (c c' : Column) : Prop :=
  name c' = name c /\ dtype c' = dtype c
  /\ take_values (values c) indices = Ok (values c').



Definition remove_at {A : Type} (i : nat) (l : list A) : list A :=
  firstn i l ++ skipn (S i) l.

(** A copy of the table without its row [i] *)
Definition remove_row (i : nat) (t : Table) : Table :=
  {| num_rows := num_rows t - 1;
     columns := map (fun c => {| name := name c; dtype := dtype c;
                                 values := remove_at i (values c) |}) (columns t) |}.

Definition cells_convertible (t : Table) : Prop :=
  Forall (fun c => forallb convertible (values c) = true) (columns t).

(** A cell that holds no NaN, however deep *)
Fixpoint no_nan (v : Value) : bool :=
  match v with
  | Double S754_nan => false
  | List items => forallb no_nan items
  | Struct fields => forallb (fun '(_, w) => no_nan w) fields
  | _ => true
  end.

Definition entries_eq (e d : list (string * PyObj)) : bool :=
  forallb (fun '(k, v) => match assoc k e with
                          | Some w => py_eq v w
                          | None => false
                          end) d.

(** Two cells at the same position are equal: for a column that is not
    nested, equal null-ness and equal values; for a nested column, deep
    equality of the Python objects they convert to. *)
Definition same_cell (nested : bool) (a b : Value) : Prop :=
  if nested then py_eq (as_py a) (as_py b) = true
  else (a = Null <-> b = Null) /\ value_equals a b = true.

(** Two columns are equal position by position; when they are not nested
    they also have the same type. *)
Definition pairwise_equal (col1 col2 : Column) : Prop :=
  (is_nested (dtype col1) = false -> dtype col2 = dtype col1)
  /\ Forall2 (same_cell (is_nested (dtype col1))) (values col1) (values col2).

Definition nan_free (t : Table) : Prop :=
  Forall (fun c => forallb no_nan (values c) = true) (columns t).

(** ** For the properties of the report, of the rows named and of [main] *)

Definition beyond_schema (i : Issue) : bool :=
  negb (String.eqb (type i) "row_count") && negb (String.eqb (type i) "columns").

(** The step of the function an issue comes from *)
Definition stage (i : Issue) : nat :=
  if String.eqb (type i) "row_count" then 0
  else if String.eqb (type i) "columns" then 1
  else if String.eqb (type i) "column_values" then 2
  else 3.

(** The column a column-value issue is about *)
Definition reported_column (i : Issue) : list string :=
  if String.eqb (type i) "column_values" then
    match message i with
    | DifferencesAt c _ | Differences c => [c]
    | _ => []
    end
  else [].

Definition reported_columns (found : list Issue) : list string :=
  flat_map reported_column found.





(** The [(idx, issue)] of the lines of the itemized report *)
Definition items_of (lines : list Line) : list (nat * Issue) :=
  flat_map (fun l => match l with Item idx issue => [(idx, issue)] | _ => [] end) lines.


(** A cell of a column of a scalar type: null, or a value of the type *)
Definition scalar_cell (ty : DataType) (v : Value) : bool :=
  match v, ty with
  | Null, _ => true
  | Int _, int64 => true
  | Double _, float64 => true
  | Str _, string_ => true
  | Bool _, bool_ => true
  | _, _ => false
  end.

(** The cells of the columns that are not nested are of the column's type. *)
Definition typed_scalars (t : Table) : Prop :=
  Forall (fun col => is_nested (dtype col) = false ->
                     forallb (scalar_cell (dtype col)) (values col) = true)
         (columns t).

Definition compared_lines (out : list MainLine) : list Line :=
  flat_map (fun l => match l with Compared x => [x] | _ => [] end) out.

(** Where a float that is not a NaN stands among the others *)
Definition float_ord (f : spec_float) : Z * (Z * Z) :=
  match f with
  | S754_infinity true => (-2, (0, 0))
  | S754_finite true m e => (-1, (- e, - Zpos m))
  | S754_zero _ => (0, (0, 0))
  | S754_finite false m e => (1, (e, Zpos m))
  | S754_infinity false => (2, (0, 0))
  | S754_nan => (3, (0, 0))
  end%Z.

Definition lex_lt (a b : Z * (Z * Z)) : Prop :=
  (fst a < fst b
   \/ (fst a = fst b
       /\ (fst (snd a) < fst (snd b)
           \/ (fst (snd a) = fst (snd b) /\ snd (snd a) < snd (snd b)))))%Z.

(** Of two cells one sorts strictly before the other. *)
Definition apart (a b : Value) : Prop := key_lt a b = true \/ key_lt b a = true.

(** No two cells of the column tie in the sort. *)
Definition tie_free (keys : list Value) : Prop := ForallOrdPairs apart keys.

Definition pair_lt (p q : nat * Value) : Prop := key_lt (snd p) (snd q) = true.

(** The order of the indices by the cells they point to *)
Definition index_lt (keys : list Value) (i j : nat) : Prop :=
  key_lt (nth i keys Null) (nth j keys Null) = true.

(** The column that [take] makes of a column *)
Definition picked (indices : list nat) (c : Column) : Column :=
  {| name := name c; dtype := dtype c;
     values := map (fun i => nth i (values c) Null) indices |}.

(** [t'] holds the rows of [t] in the order [p], with its columns in any
    order. *)
Definition reordered (p : list nat) (t t' : Table) : Prop :=
  Permutation p (seq 0 (num_rows t))
  /\ exists u, take t p = Ok u
               /\ num_rows t' = num_rows u
               /\ Permutation (columns t') (columns u).

(** * Tables of the examples *)

Definition one_column (n : string) (ty : DataType) (vs : list Value) : Table :=
  table_of [ {| name := n; dtype := ty; values := vs |} ].

Definition twice_a : Table :=
  {| num_rows := 1;
     columns := [ {| name := "a"; dtype := int64; values := [Int 1] |};
                  {| name := "a"; dtype := int64; values := [Int 2] |} ] |}.

Definition nested_then_scalar : Table :=
  table_of [ {| name := "b"; dtype := int64; values := [Int 2; Int 1] |};
             {| name := "a"; dtype := list_ int64; values := [List [Int 1]; List []] |};
             {| name := "c"; dtype := string_; values := [Str "x"; Str "y"] |} ].



Definition three_rows : Table := one_column "a" int64 [Int 1; Int 2; Int 3].

Definition table_abc : Table :=
  table_of [ {| name := "a"; dtype := int64; values := [Int 2; Int 1] |};
             {| name := "b"; dtype := string_; values := [Str "y"; Str "x"] |};
             {| name := "c"; dtype := bool_; values := [Bool true; Bool false] |} ].


Definition table_list_key : Table :=
  table_of [ {| name := "a"; dtype := list_ int64; values := [List [Int 1]; List []] |};
             {| name := "b"; dtype := string_; values := [Str "x"; Str "y"] |};
             {| name := "d"; dtype := float64; values := [Null; Null] |} ].

(** A struct column, and a column that tells where each row was *)
Definition struct_keyed : Table :=
  table_of [ {| name := "s"; dtype := struct [("x", int64); ("y", string_)];
                values := [ Struct [("x", Int 2); ("y", Str "a")];
                            Null;
                            Struct [("x", Int 1); ("y", Str "b")];
                            Struct [("x", Int 1); ("y", Str "a")] ] |};
             {| name := "row"; dtype := int64;
                values := [Int 0; Int 1; Int 2; Int 3] |} ].

Definition reordered_1 : Table :=
  table_of [ {| name := "id"; dtype := int64; values := [Int 2; Int 1; Null] |};
             {| name := "tags"; dtype := list_ string_;
                values := [List [Str "y"]; List []; Null] |} ].

Definition reordered_2 : Table :=
  table_of [ {| name := "tags"; dtype := list_ string_;
                values := [List []; Null; List [Str "y"]] |};
             {| name := "id"; dtype := int64; values := [Int 1; Null; Int 2] |} ].

Definition only_nested : Table := one_column "a" (list_ int64) [List [Int 1]].

Definition only_nan : Table := one_column "a" float64 [Double nan].

Definition twice_b : Table :=
  {| num_rows := 1;
     columns := [ {| name := "b"; dtype := int64; values := [Int 1] |};
                  {| name := "b"; dtype := list_ int64; values := [Null] |} ] |}.

Definition one_two_three : Table := one_column "a" int64 [Int 1; Int 2; Int 3].
Definition one_two_ninety_nine : Table := one_column "a" int64 [Int 1; Int 2; Int 99].

Definition one_null : Table := one_column "a" int64 [Int 1; Null].



Definition one_two : Table := one_column "a" int64 [Int 1; Int 2].

Definition no_rows_int : Table := one_column "a" int64 [].
Definition no_rows_str : Table := one_column "a" string_ [].

Definition lists_one_null : Table :=
  table_of [ {| name := "a"; dtype := int64; values := [Int 1; Int 2] |};
             {| name := "l"; dtype := list_ int64; values := [List [Int 1]; Null] |} ].

Definition lists_one_two : Table :=
  table_of [ {| name := "a"; dtype := int64; values := [Int 1; Int 2] |};
             {| name := "l"; dtype := list_ int64;
                values := [List [Int 1]; List [Int 2]] |} ].

Definition one_as_int : Table := one_column "a" int64 [Int 1].
Definition one_as_string : Table := one_column "a" string_ [Str "1"].
Definition one_as_list : Table := one_column "a" (list_ int64) [List [Int 1]].

(** Rows with the same key, in two orders *)
Definition tied_1 : Table :=
  table_of [ {| name := "k"; dtype := int64; values := [Int 1; Int 1] |};
             {| name := "v"; dtype := string_; values := [Str "x"; Str "y"] |} ].

Definition tied_2 : Table :=
  table_of [ {| name := "k"; dtype := int64; values := [Int 1; Int 1] |};
             {| name := "v"; dtype := string_; values := [Str "y"; Str "x"] |} ].

(** A file system with a parquet file, a datasets directory, a text file and
    a directory that the datasets loader refuses *)
Definition example_world : World :=
  {| entry := fun p => if String.eqb p "a.parquet" then RegularFile
                       else if String.eqb p "notes.txt" then RegularFile
                       else if String.eqb p "dataset" then Directory
                       else if String.eqb p "empty_dir" then Directory
                       else Absent;
     suffix := fun p => if String.eqb p "a.parquet" then ".parquet"
                        else if String.eqb p "notes.txt" then ".txt"
                        else "";
     read_table := fun _ => Ok one_two_three;
     load_from_disk := fun p => if String.eqb p "dataset" then Ok one_two_ninety_nine
                                else Raise (ValueError "not a dataset") |}.

(** * Reasoning about the monad *)

Lemma extend_initial_r s : extend s initial = s.
Proof. destruct s; unfold extend; simpl; now rewrite !app_nil_r. Qed.

Lemma extend_assoc s d e : extend (extend s d) e = extend s (extend d e).
Proof. unfold extend; simpl; now rewrite !app_assoc. Qed.

Lemma framed_ret {A} (a : A) : framed (ret a).
Proof. intro s; unfold ret; simpl; now rewrite extend_initial_r. Qed.

Lemma framed_lift {A} (r : result A) : framed (lift r).
Proof. intro s; unfold lift; simpl; now rewrite extend_initial_r. Qed.

Lemma framed_print l : framed (print l).
Proof. intro s; unfold print, extend; simpl; now rewrite !app_nil_r. Qed.

Lemma framed_issues_append i : framed (issues_append i).
Proof. intro s; unfold issues_append, extend; simpl; now rewrite !app_nil_r. Qed.

Lemma framed_record_mode c m : framed (record_mode c m).
Proof. intro s; unfold record_mode, extend; simpl; now rewrite !app_nil_r. Qed.

Lemma framed_bind {A B} (m : M A) (k : A -> M B) :
  framed m -> (forall a, framed (k a)) -> framed (bind m k).
Proof.
  intros Hm Hk s. unfold bind. rewrite (Hm s).
  destruct (m initial) as [[a | e] d]; simpl.
  - rewrite (Hk a (extend s d)), (Hk a d). simpl. now rewrite extend_assoc.
  - reflexivity.
Qed.

Lemma framed_try_except {A} (body : M A) (handler : exn -> M A) :
  framed body -> (forall e, framed (handler e)) -> framed (try_except body handler).
Proof.
  intros Hm Hk s. unfold try_except. rewrite (Hm s).
  destruct (body initial) as [[a | e] d]; simpl.
  - reflexivity.
  - rewrite (Hk e (extend s d)), (Hk e d). simpl. now rewrite extend_assoc.
Qed.

Lemma framed_when b m : framed m -> framed (when b m).
Proof. destruct b; simpl; auto using framed_ret. Qed.

Lemma framed_if {A} (b : bool) (m n : M A) :
  framed m -> framed n -> framed (if b then m else n).
Proof. now destruct b. Qed.

Lemma framed_for_each {A} (l : list A) (body : A -> M unit) :
  (forall x, framed (body x)) -> framed (for_each l body).
Proof.
  intro H. induction l; simpl; auto using framed_ret, framed_bind.
Qed.

Create HintDb framed.
#[export] Hint Resolve framed_ret framed_lift framed_print framed_issues_append
  framed_record_mode framed_when framed_for_each : framed.

Ltac framing :=
  repeat first
    [ apply framed_bind; [ | intro ]
    | apply framed_try_except; [ | intro ]
    | apply framed_if
    | apply framed_when
    | apply framed_for_each; intro
    | solve [ auto with framed ] ].

Lemma framed_compare_column s1 s2 c : framed (compare_column s1 s2 c).
Proof.
  unfold compare_column. framing.
Qed.

Lemma framed_compare_sorted t1 t2 k : framed (compare_sorted t1 t2 k).
Proof.
  unfold compare_sorted. framing.
Qed.

Lemma framed_compare_common t1 t2 : framed (compare_common t1 t2).
Proof.
  unfold compare_common. framing.
  destruct a; framing.
Qed.

(** ** The run, block by block *)

Lemma before_comparison_run t1 t2 l1 l2 :
  before_comparison t1 t2 l1 l2 initial
  = (Ok tt, {| issues := schema_issues t1 t2 l1 l2;
               stdout := summary_lines t1 t2 l1 l2;
               modes := [] |}).
Proof.
  unfold before_comparison, summary, check_row_counts, check_columns,
    schema_issues, row_count_issue, columns_issue.
  destruct (negb (num_rows t1 =? num_rows t2));
    destruct (nonempty (cols_only_in_1 t1 t2));
    destruct (nonempty (cols_only_in_2 t1 t2)); reflexivity.
Qed.

Lemma for_each_print {A} (f : A -> Line) (body : A -> M unit) (l : list A) s :
  (forall x, body x = print (f x)) ->
  for_each l body s
  = (Ok tt, {| issues := issues s; stdout := stdout s ++ map f l; modes := modes s |}).
Proof.
  intro Hbody. revert s. induction l as [| x l IH]; intro s; simpl.
  - unfold ret. rewrite app_nil_r. now destruct s.
  - unfold bind. rewrite Hbody. unfold print at 1. rewrite IH. simpl.
    now rewrite <- app_assoc.
Qed.

Lemma bind_print {B} (l : Line) (k : unit -> M B) s :
  bind (print l) k s
  = k tt {| issues := issues s; stdout := stdout s ++ [l]; modes := modes s |}.
Proof. reflexivity. Qed.

Lemma final_report_run s :
  final_report s
  = (Ok (negb (nonempty (issues s))),
     {| issues := issues s;
        stdout := stdout s ++ report_lines (issues s);
        modes := modes s |}).
Proof.
  unfold final_report, report_lines. rewrite !bind_print.
  destruct s as [found out ms]. unfold bind at 1, get_issues. cbn [issues stdout modes].
  destruct found as [| i found]; cbn [nonempty negb].
  - rewrite bind_print. unfold ret. cbn [issues stdout modes].
    now rewrite <- !app_assoc.
  - rewrite bind_print. unfold bind at 1.
    rewrite (for_each_print (fun '(idx, issue) => Item idx issue))
      by (intros [idx issue]; reflexivity).
    rewrite bind_print. unfold ret. cbn [issues stdout modes].
    rewrite <- !app_assoc. reflexivity.
Qed.

Lemma run_unfold t1 t2 l1 l2 :
  run t1 t2 l1 l2
  = match compare_common t1 t2 initial with
    | (Ok _, d) => final_report (extend (pre_state t1 t2 l1 l2) d)
    | (Raise e, d) => (Raise e, extend (pre_state t1 t2 l1 l2) d)
    end.
Proof.
  pose proof (before_comparison_run t1 t2 l1 l2) as H.
  unfold run, compare_tables, before_comparison in *.
  unfold bind at 1. change (new_issues initial) with (Ok tt, initial). cbv iota.
  unfold bind in *.
  destruct (summary t1 t2 l1 l2 initial) as [[[] | e] s1]; [ | discriminate ].
  destruct (check_row_counts t1 t2 l1 l2 s1) as [[[] | e] s2]; [ | discriminate ].
  destruct (check_columns t1 t2 l1 l2 s2) as [[[] | e] s3]; [ | discriminate ].
  injection H as ->. fold (pre_state t1 t2 l1 l2).
  rewrite (framed_compare_common t1 t2 (pre_state t1 t2 l1 l2)).
  destruct (compare_common t1 t2 initial) as [[[] | e] d]; reflexivity.
Qed.

Lemma compare_common_cases t1 t2 :
  compare_common t1 t2 initial
  = if rows_and_common t1 t2 then
      match find_sort_column t1 (sorted (common_cols t1 t2)) with
      | Raise e => (Raise e, initial)
      | Ok None => (Ok tt, only_issues [no_sortable_column])
      | Ok (Some k) =>
          (fst (compare_sorted t1 t2 k initial),
           extend (only_lines [SortingBy k]) (snd (compare_sorted t1 t2 k initial)))
      end
    else (Ok tt, initial).
Proof.
  unfold compare_common, rows_and_common.
  destruct (nonempty (common_cols t1 t2) && (0 <? num_rows t1) && (0 <? num_rows t2));
    [ | reflexivity ].
  cbn [when]. unfold bind at 1, lift.
  destruct (find_sort_column t1 (sorted (common_cols t1 t2))) as [[k |] | e];
    try reflexivity.
  rewrite bind_print.
  now rewrite framed_compare_sorted.
Qed.

Lemma compare_sorted_cases t1 t2 k :
  compare_sorted t1 t2 k initial
  = match sort_by t1 k with
    | Raise e => (Ok tt, only_issues [sorting_error e])
    | Ok s1 =>
        match sort_by t2 k with
        | Raise e => (Ok tt, only_issues [sorting_error e])
        | Ok s2 =>
            let header := only_lines [ComparingCommon (length (common_cols t1 t2))] in
            match loop s1 s2 (sorted (common_cols t1 t2)) initial with
            | (Ok _, d) => (Ok tt, extend header d)
            | (Raise e, d) =>
                (Ok tt, extend (extend header d) (only_issues [sorting_error e]))
            end
        end
    end.
Proof.
  unfold compare_sorted, try_except, loop.
  unfold bind at 1, lift.
  destruct (sort_by t1 k) as [s1 | e]; [ | reflexivity ].
  unfold bind at 1.
  destruct (sort_by t2 k) as [s2 | e]; [ | reflexivity ].
  rewrite bind_print.
  rewrite (framed_for_each _ _ (framed_compare_column s1 s2)).
  destruct (for_each (sorted (common_cols t1 t2)) (compare_column s1 s2) initial)
    as [[[] | e] d]; [ reflexivity | ].
  cbn [fst snd]. unfold issues_append, extend, only_issues.
  cbn [issues stdout modes]. now rewrite !app_nil_r.
Qed.

Lemma loop_nil s1 s2 : loop s1 s2 [] initial = (Ok tt, initial).
Proof. reflexivity. Qed.

Lemma loop_cons s1 s2 c cols :
  loop s1 s2 (c :: cols) initial
  = match compare_column s1 s2 c initial with
    | (Ok _, d) =>
        (fst (loop s1 s2 cols initial), extend d (snd (loop s1 s2 cols initial)))
    | (Raise e, d) => (Raise e, d)
    end.
Proof.
  unfold loop. cbn [for_each]. unfold bind at 1.
  destruct (compare_column s1 s2 c initial) as [[[] | e] d]; [ | reflexivity ].
  now rewrite (framed_for_each _ _ (framed_compare_column s1 s2)).
Qed.

Lemma compare_column_cases s1 s2 c :
  compare_column s1 s2 c initial
  = match column s1 c, column s2 c, field_type s1 c with
    | Ok col1, Ok col2, Ok ty =>
        match columns_equal ty col1 col2 with
        | Ok true => (Ok tt, checked c ty [PrintOK] [])
        | Ok false =>
            (Ok tt, checked c ty [PrintMISMATCH] [column_values_issue c ty col1 col2])
        | Raise e => (Raise e, checked c ty [] [])
        end
    | Raise e, _, _ | Ok _, Raise e, _ | Ok _, Ok _, Raise e =>
        (Raise e, only_lines [Checking c])
    end.
Proof.
  unfold compare_column. rewrite bind_print.
  unfold bind at 1, lift. destruct (column s1 c) as [col1 | e]; [ | reflexivity ].
  unfold bind at 1. destruct (column s2 c) as [col2 | e]; [ | reflexivity ].
  unfold bind at 1. destruct (field_type s1 c) as [ty | e]; [ | reflexivity ].
  unfold bind at 1, record_mode. cbn [issues stdout modes initial app].
  unfold bind at 1.
  destruct (columns_equal ty col1 col2) as [[|] | e]; try reflexivity.
  cbn [negb]. rewrite bind_print. unfold try_except, bind, lift, column_values_issue.
  destruct (first_difference ty col1 col2); reflexivity.
Qed.

Lemma run_reported t1 t2 l1 l2 d :
  final_report (extend (pre_state t1 t2 l1 l2) d)
  = (Ok (negb (nonempty (schema_issues t1 t2 l1 l2 ++ issues d))),
     {| issues := schema_issues t1 t2 l1 l2 ++ issues d;
        stdout := summary_lines t1 t2 l1 l2 ++ stdout d
                  ++ report_lines (schema_issues t1 t2 l1 l2 ++ issues d);
        modes := modes d |}).
Proof.
  rewrite final_report_run. unfold extend, pre_state. cbn [issues stdout modes app].
  now rewrite <- app_assoc.
Qed.

Lemma run_has_shape t1 t2 l1 l2 : run_shape t1 t2 l1 l2 (run t1 t2 l1 l2).
Proof.
  rewrite run_unfold, compare_common_cases.
  destruct (rows_and_common t1 t2) eqn:Hguard.
  2:{ rewrite run_reported. apply shape_reported. now constructor. }
  destruct (find_sort_column t1 (sorted (common_cols t1 t2))) as [[k |] | e] eqn:Hfind.
  3:{ rewrite extend_initial_r. now apply shape_raised. }
  2:{ rewrite run_reported. apply shape_reported. now constructor. }
  rewrite compare_sorted_cases.
  destruct (sort_by t1 k) as [s1 | e] eqn:Hs1.
  2:{ cbn [fst snd]. rewrite run_reported. apply shape_reported.
      eapply shape_sort_failed; eauto. }
  destruct (sort_by t2 k) as [s2 | e] eqn:Hs2.
  2:{ cbn [fst snd]. rewrite run_reported. apply shape_reported.
      eapply shape_sort_failed; eauto. }
  destruct (loop s1 s2 (sorted (common_cols t1 t2)) initial) as [[u | e] d] eqn:Hloop;
    cbn [fst snd]; rewrite run_reported; apply shape_reported.
  - pose proof (shape_compared t1 t2 k s1 s2 _ d Hguard Hfind Hs1 Hs2 Hloop) as H.
    cbn in *. now rewrite !app_nil_r in *.
  - pose proof (shape_compared t1 t2 k s1 s2 _ d Hguard Hfind Hs1 Hs2 Hloop) as H.
    cbn in *. now rewrite !app_nil_r in *.
Qed.

(** * Sets of names and their sorted listing *)

Lemma mem_In x l : mem x l = true <-> In x l.
Proof.
  induction l as [| y l IH]; simpl.
  - split; [ discriminate | tauto ].
  - rewrite orb_true_iff, IH, String.eqb_eq. split; intros [H | H]; auto.
Qed.

Lemma mem_false x l : mem x l = false <-> ~ In x l.
Proof.
  rewrite <- mem_In. destruct (mem x l); split; congruence.
Qed.

Lemma set_In x l : In x (set_ l) <-> In x l.
Proof.
  induction l as [| y l IH]; simpl; [ tauto | ].
  destruct (mem y l) eqn:E.
  - rewrite IH. apply mem_In in E. split; [ auto | intros [-> | H]; auto ].
  - simpl. now rewrite IH.
Qed.

Lemma set_NoDup l : NoDup (set_ l).
Proof.
  induction l as [| y l IH]; simpl; [ constructor | ].
  destruct (mem y l) eqn:E; [ assumption | ].
  constructor; [ | assumption ].
  rewrite set_In. now apply mem_false.
Qed.

Lemma difference_In x a b : In x (difference a b) <-> In x a /\ ~ In x b.
Proof.
  unfold difference. rewrite filter_In, negb_true_iff, mem_false. tauto.
Qed.

Lemma intersection_In x a b : In x (intersection a b) <-> In x a /\ In x b.
Proof.
  unfold intersection. rewrite filter_In, mem_In. tauto.
Qed.

Lemma cols_only_in_1_In x t1 t2 :
  In x (cols_only_in_1 t1 t2) <-> In x (column_names t1) /\ ~ In x (column_names t2).
Proof. unfold cols_only_in_1. now rewrite difference_In, !set_In. Qed.

Lemma cols_only_in_2_In x t1 t2 :
  In x (cols_only_in_2 t1 t2) <-> In x (column_names t2) /\ ~ In x (column_names t1).
Proof. unfold cols_only_in_2. now rewrite difference_In, !set_In. Qed.

Lemma common_cols_In x t1 t2 :
  In x (common_cols t1 t2) <-> In x (column_names t1) /\ In x (column_names t2).
Proof. unfold common_cols. now rewrite intersection_In, !set_In. Qed.

Lemma filter_NoDup {A} (p : A -> bool) l : NoDup l -> NoDup (filter p l).
Proof.
  induction 1 as [| x l Hx Hl IH]; simpl; [ constructor | ].
  destruct (p x); [ | assumption ].
  constructor; [ | assumption ]. rewrite filter_In. tauto.
Qed.

Lemma common_cols_NoDup t1 t2 : NoDup (common_cols t1 t2).
Proof. apply filter_NoDup, set_NoDup. Qed.

Lemma nonempty_false {A} (l : list A) : nonempty l = false <-> l = [].
Proof. destruct l; simpl; split; congruence. Qed.

Lemma nonempty_true {A} (l : list A) : nonempty l = true <-> l <> [].
Proof. destruct l; simpl; split; congruence. Qed.

Lemma compare_as_OT a b : String.compare a b = String_as_OT.compare a b.
Proof.
  revert b. induction a as [| x a IH]; destruct b as [| y b]; reflexivity.
Qed.

Lemma name_lt_as_OT a b : name_lt a b <-> String_as_OT.lt a b.
Proof.
  unfold name_lt, String.ltb, String_as_OT.lt. rewrite compare_as_OT.
  destruct (String_as_OT.compare a b); split; congruence.
Qed.

Lemma name_lt_trans a b c : name_lt a b -> name_lt b c -> name_lt a c.
Proof.
  rewrite !name_lt_as_OT. intros H1 H2. etransitivity; eassumption.
Qed.

Lemma name_lt_irrefl a : ~ name_lt a a.
Proof.
  rewrite name_lt_as_OT. intro H. exact (irreflexivity H).
Qed.

Lemma name_le_lt a b : name_le a b <-> name_lt a b \/ a = b.
Proof.
  unfold name_le, name_lt, String.leb, String.ltb.
  destruct (String.compare a b) eqn:E.
  - apply String.compare_eq_iff in E. tauto.
  - tauto.
  - split; [ discriminate | ]. intros [H | ->]; [ discriminate | ].
    exfalso. apply (name_lt_irrefl b). unfold name_lt, String.ltb.
    rewrite String.compare_antisym, E. reflexivity.
Qed.

Lemma name_trichotomy a b : name_lt a b \/ a = b \/ name_lt b a.
Proof.
  unfold name_lt, String.ltb.
  destruct (String.compare a b) eqn:E; auto.
  - apply String.compare_eq_iff in E. auto.
  - rewrite String.compare_antisym, E. auto.
Qed.

Lemma name_le_false a b : String.leb a b = false -> name_lt b a.
Proof.
  unfold name_lt, String.leb, String.ltb. rewrite (String.compare_antisym b a).
  destruct (String.compare a b); simpl; congruence.
Qed.

Lemma insert_name_In x y l : In x (insert_name y l) <-> x = y \/ In x l.
Proof.
  induction l as [| z l IH]; simpl.
  - intuition.
  - destruct (String.leb y z); simpl; rewrite ?IH; intuition.
Qed.

Lemma sorted_In x l : In x (sorted l) <-> In x l.
Proof.
  induction l as [| y l IH]; simpl; [ tauto | ].
  rewrite insert_name_In, IH. intuition.
Qed.

Lemma insert_name_ascending x l :
  ~ In x l -> ascending l -> ascending (insert_name x l).
Proof.
  intros Hx Hl. induction Hl as [| y l Hy Hl IH]; simpl.
  - repeat constructor.
  - destruct (String.leb x y) eqn:E.
    + assert (Hxy : name_lt x y).
      { apply name_le_lt in E as [E | ->]; [ assumption | ]. simpl in Hx. tauto. }
      constructor; [ | now constructor ].
      constructor; [ assumption | ].
      unfold all_after in *. rewrite Forall_forall in *.
      intros z Hz. eapply name_lt_trans; eauto.
    + apply name_le_false in E. simpl in Hx.
      constructor; [ | apply IH; tauto ].
      unfold all_after in *. rewrite Forall_forall in *.
      intros z Hz. apply insert_name_In in Hz as [-> | Hz]; auto.
Qed.

Lemma sorted_ascending l : NoDup l -> ascending (sorted l).
Proof.
  induction 1 as [| x l Hx Hl IH]; simpl; [ constructor | ].
  apply insert_name_ascending; [ | assumption ].
  now rewrite sorted_In.
Qed.


(** * Looking columns up *)

Lemma named_absent n (cols : list Column) :
  ~ In n (map name cols) -> filter (fun c => String.eqb (name c) n) cols = [].
Proof.
  induction cols as [| c cols IH]; simpl; [ reflexivity | ].
  intro H. destruct (String.eqb_spec (name c) n) as [E | E]; [ tauto | ].
  apply IH. tauto.
Qed.

Lemma named_unique n (cols : list Column) :
  NoDup (map name cols) -> In n (map name cols) ->
  exists c, filter (fun c => String.eqb (name c) n) cols = [c]
            /\ In c cols /\ name c = n.
Proof.
  induction cols as [| c cols IH]; simpl; [ tauto | ].
  intros Hn Hin. inversion Hn as [| ? ? Hc Hn']; subst.
  destruct (String.eqb_spec (name c) n) as [E | E].
  - exists c. subst n. rewrite (named_absent _ _ Hc). auto.
  - destruct Hin as [Hin | Hin]; [ contradiction | ].
    destruct (IH Hn' Hin) as (c' & H1 & H2 & H3). exists c'. auto.
Qed.

Lemma named_In n t c : In c (named n t) -> In c (columns t) /\ name c = n.
Proof.
  unfold named. rewrite filter_In, String.eqb_eq. tauto.
Qed.

Lemma column_Ok t n c : column t n = Ok c -> In c (columns t) /\ name c = n.
Proof.
  unfold column. destruct (named n t) as [| c' [| ? ?]] eqn:E; try discriminate.
  intros [= <-]. apply named_In. rewrite E. now left.
Qed.

Lemma field_type_column t n :
  field_type t n = match column t n with
                   | Ok c => Ok (dtype c)
                   | Raise e => Raise e
                   end.
Proof.
  unfold field_type, column. now destruct (named n t) as [| c [| ? ?]].
Qed.

Lemma field_type_Ok t n ty : field_type t n = Ok ty -> In n (column_names t).
Proof.
  rewrite field_type_column. destruct (column t n) as [c | e] eqn:E; [ | discriminate ].
  intros _. apply column_Ok in E as [H <-]. now apply in_map.
Qed.

Lemma column_of_well_formed t n :
  NoDup (column_names t) -> In n (column_names t) ->
  exists c, column t n = Ok c /\ In c (columns t) /\ name c = n.
Proof.
  intros Hn Hin. destruct (named_unique n (columns t) Hn Hin) as (c & H1 & H2 & H3).
  exists c. unfold column, named. rewrite H1. auto.
Qed.

Lemma field_type_of_well_formed t n :
  NoDup (column_names t) -> In n (column_names t) ->
  exists ty, field_type t n = Ok ty.
Proof.
  intros Hn Hin. destruct (column_of_well_formed t n Hn Hin) as (c & H & _).
  rewrite field_type_column, H. eauto.
Qed.

(** ** The sort key *)

Lemma scalar_not_nested t c : scalar_in t c -> nested_in t c -> False.
Proof. intros (ty & H1 & H2) (ty' & H3 & H4). congruence. Qed.

Lemma find_sort_column_Some t names k :
  ascending names -> find_sort_column t names = Ok (Some k) ->
  In k names /\ scalar_in t k
  /\ forall c, In c names -> name_lt c k -> nested_in t c.
Proof.
  induction 1 as [| x l Hx Hl IH]; simpl; [ discriminate | ].
  destruct (field_type t x) as [ty | e] eqn:E; simpl; [ | discriminate ].
  destruct (is_nested ty) eqn:N; simpl.
  - intro H. destruct (IH H) as (H1 & H2 & H3). repeat split; auto.
    intros c [<- | Hc] Hck; [ exists ty; auto | auto ].
  - intros [= <-]. repeat split; auto.
    + exists ty; auto.
    + intros c [<- | Hc] Hck.
      * now apply name_lt_irrefl in Hck.
      * exfalso. unfold all_after in Hx. rewrite Forall_forall in Hx.
        apply (name_lt_irrefl c). eapply name_lt_trans; eauto.
Qed.

Lemma find_sort_column_None t names :
  find_sort_column t names = Ok None -> forall c, In c names -> nested_in t c.
Proof.
  induction names as [| x l IH]; simpl; [ tauto | ].
  destruct (field_type t x) as [ty | e] eqn:E; simpl; [ | discriminate ].
  destruct (is_nested ty) eqn:N; simpl; [ | discriminate ].
  intros H c [<- | Hc]; [ exists ty; auto | auto ].
Qed.

Lemma find_sort_column_total t names :
  (forall c, In c names -> exists ty, field_type t c = Ok ty) ->
  exists r, find_sort_column t names = Ok r.
Proof.
  induction names as [| x l IH]; simpl; [ eauto | ].
  intro H. destruct (H x (or_introl eq_refl)) as [ty ->]. simpl.
  destruct (is_nested ty); simpl; eauto.
Qed.

Lemma find_sort_column_all_nested t names :
  (forall c, In c names -> nested_in t c) -> find_sort_column t names = Ok None.
Proof.
  induction names as [| x l IH]; simpl; [ reflexivity | ].
  intro H. destruct (H x (or_introl eq_refl)) as (ty & -> & N). simpl.
  rewrite N. simpl. auto.
Qed.

Lemma find_sort_column_names t1 t2 (c : string) :
  NoDup (column_names t1) -> In c (sorted (common_cols t1 t2)) ->
  exists ty, field_type t1 c = Ok ty.
Proof.
  intros Hn Hc. apply sorted_In, common_cols_In in Hc as [Hc _].
  now apply field_type_of_well_formed.
Qed.

(** * The loop over the common columns *)

Lemma compare_column_facts s1 s2 c r d :
  compare_column s1 s2 c initial = (r, d) ->
  Forall (loop_issue [c]) (issues d)
  /\ Forall (loop_line [c]) (stdout d)
  /\ Forall (loop_mode s1 [c]) (modes d)
  /\ In (Checking c) (stdout d)
  /\ (r = Ok tt -> issues d = [] -> compared s1 s2 c true)
  /\ (r = Ok tt -> issues d <> [] -> compared s1 s2 c false)
  /\ (r = Ok tt -> length (filter (fun l => match l with Checking _ => true | _ => false end)
                             (stdout d)) = 1).
Proof.
  rewrite compare_column_cases.
  assert (Hline : loop_line [c] (Checking c)) by (left; exists c; simpl; auto).
  destruct (column s1 c) as [col1 | e] eqn:E1.
  2:{ intros [= <- <-]. cbn. repeat split; auto; discriminate. }
  destruct (column s2 c) as [col2 | e] eqn:E2.
  2:{ intros [= <- <-]. cbn. repeat split; auto; discriminate. }
  rewrite field_type_column, E1.
  assert (Hmode : loop_mode s1 [c] (c, mode_of (dtype col1))).
  { split; [ simpl; auto | ]. exists (dtype col1). cbn [fst snd].
    rewrite field_type_column, E1. auto. }
  destruct (columns_equal (dtype col1) col1 col2) as [[|] | e] eqn:E3;
    intros [= <- <-]; cbn.
  - repeat split; auto.
    + constructor; auto. constructor; [ right; left; reflexivity | constructor ].
    + intros _ _. exists col1, col2. auto.
    + intros _ H. congruence.
  - repeat split; auto.
    + constructor; [ | constructor ]. split; [ reflexivity | ].
      exists c. split; [ simpl; auto | ].
      cbn. destruct (first_difference (dtype col1) col1 col2); eauto.
    + constructor; auto. constructor; [ right; right; reflexivity | constructor ].
    + discriminate.
    + intros _ _. exists col1, col2. auto.
  - repeat split; auto; discriminate.
Qed.

Lemma loop_line_incl cols cols' l :
  incl cols cols' -> loop_line cols l -> loop_line cols' l.
Proof.
  intros H [(c & -> & Hc) | Hl]; [ left; exists c; auto | right; assumption ].
Qed.

Lemma loop_issue_incl cols cols' i :
  incl cols cols' -> loop_issue cols i -> loop_issue cols' i.
Proof.
  intros H (Ht & c & Hc & Hm). split; [ assumption | ]. exists c. auto.
Qed.

Lemma loop_mode_incl s1 cols cols' cm :
  incl cols cols' -> loop_mode s1 cols cm -> loop_mode s1 cols' cm.
Proof.
  intros H (Hc & Hm). split; auto.
Qed.

Lemma loop_facts s1 s2 cols : forall r d,
  loop s1 s2 cols initial = (r, d) ->
  Forall (loop_issue cols) (issues d)
  /\ Forall (loop_line cols) (stdout d)
  /\ Forall (loop_mode s1 cols) (modes d)
  /\ (r = Ok tt -> forall c, In c cols -> In (Checking c) (stdout d))
  /\ (r = Ok tt -> issues d = [] -> forall c, In c cols -> compared s1 s2 c true).
Proof.
  induction cols as [| c cols IH]; intros r d.
  - rewrite loop_nil. intros [= <- <-]. cbn. repeat split; auto; intros; contradiction.
  - rewrite loop_cons.
    destruct (compare_column s1 s2 c initial) as [[[] | e] d1] eqn:E1.
    + destruct (loop s1 s2 cols initial) as [r2 d2] eqn:E2. cbn [fst snd].
      intros [= <- <-].
      destruct (compare_column_facts _ _ _ _ _ E1) as (A1 & A2 & A3 & A4 & A5 & _).
      destruct (IH _ _ eq_refl) as (B1 & B2 & B3 & B4 & B5).
      assert (I1 : incl [c] (c :: cols)) by (intros x [<- | []]; now left).
      assert (I2 : incl cols (c :: cols)) by (intros x Hx; now right).
      cbn [extend issues stdout modes]. repeat split.
      * apply Forall_app; split;
          [ eapply Forall_impl; [ | exact A1 ] | eapply Forall_impl; [ | exact B1 ] ];
          intro; apply loop_issue_incl; assumption.
      * apply Forall_app; split;
          [ eapply Forall_impl; [ | exact A2 ] | eapply Forall_impl; [ | exact B2 ] ];
          intro; apply loop_line_incl; assumption.
      * apply Forall_app; split;
          [ eapply Forall_impl; [ | exact A3 ] | eapply Forall_impl; [ | exact B3 ] ];
          intro; apply loop_mode_incl; assumption.
      * intros -> x [<- | Hx]; apply in_or_app; [ now left | right ].
        now apply B4.
      * intros -> Hnil x Hx. apply app_eq_nil in Hnil as [N1 N2].
        destruct Hx as [<- | Hx]; [ now apply A5 | now apply B5 ].
    + intros [= <- <-].
      destruct (compare_column_facts _ _ _ _ _ E1) as (A1 & A2 & A3 & A4 & _).
      assert (I1 : incl [c] (c :: cols)) by (intros x [<- | []]; now left).
      repeat split; try discriminate.
      * eapply Forall_impl; [ | exact A1 ]. intro; now apply loop_issue_incl.
      * eapply Forall_impl; [ | exact A2 ]. intro; now apply loop_line_incl.
      * eapply Forall_impl; [ | exact A3 ]. intro; now apply loop_mode_incl.
Qed.

(** * Reading the report *)

Lemma count_type_app ty a b : count_type ty (a ++ b) = count_type ty a + count_type ty b.
Proof. unfold count_type. now rewrite filter_app, length_app. Qed.

Lemma count_type_none ty found :
  Forall (fun i => type i <> ty) found -> count_type ty found = 0.
Proof.
  unfold count_type. induction 1 as [| i l Hi Hl IH]; simpl; [ reflexivity | ].
  destruct (String.eqb_spec (type i) ty); [ contradiction | assumption ].
Qed.

Lemma schema_issues_types t1 t2 l1 l2 :
  Forall (fun i => type i = "row_count" \/ type i = "columns") (schema_issues t1 t2 l1 l2).
Proof.
  unfold schema_issues, only_if.
  destruct (negb (num_rows t1 =? num_rows t2));
    destruct (nonempty (cols_only_in_1 t1 t2));
    destruct (nonempty (cols_only_in_2 t1 t2)); cbn;
    repeat apply Forall_cons; try apply Forall_nil; cbn; auto.
Qed.

Lemma schema_issues_count ty t1 t2 l1 l2 :
  ty <> "row_count" -> ty <> "columns" -> count_type ty (schema_issues t1 t2 l1 l2) = 0.
Proof.
  intros H1 H2. apply count_type_none.
  eapply Forall_impl; [ | apply schema_issues_types ].
  intros i [E | E]; congruence.
Qed.

Lemma schema_issues_row_count t1 t2 l1 l2 :
  count_type "row_count" (schema_issues t1 t2 l1 l2)
  = if num_rows t1 =? num_rows t2 then 0 else 1.
Proof.
  unfold schema_issues, only_if.
  destruct (num_rows t1 =? num_rows t2);
    destruct (nonempty (cols_only_in_1 t1 t2));
    destruct (nonempty (cols_only_in_2 t1 t2)); reflexivity.
Qed.

Lemma report_lines_plain found l : In l (report_lines found) -> narrates l = false.
Proof.
  unfold report_lines. intro H. apply in_app_or in H as [H | H].
  - simpl in H. intuition; subst; reflexivity.
  - destruct (nonempty found).
    + destruct H as [<- | H]; [ reflexivity | ].
      apply in_app_or in H as [H | [<- | []]]; [ | reflexivity ].
      apply in_map_iff in H as ([idx issue] & <- & _). reflexivity.
    + destruct H as [<- | []]. reflexivity.
Qed.

Lemma narration_of_run t1 t2 l1 l2 lines found l :
  narrates l = true ->
  In l (summary_lines t1 t2 l1 l2 ++ lines ++ report_lines found) <-> In l lines.
Proof.
  intro Hl. rewrite !in_app_iff. split; [ | auto ].
  intros [H | [H | H]]; [ | assumption | ].
  - simpl in H. intuition; subst; discriminate.
  - apply report_lines_plain in H. congruence.
Qed.

Lemma rows_and_common_true t1 t2 :
  rows_and_common t1 t2 = true
  <-> common_cols t1 t2 <> [] /\ 0 < num_rows t1 /\ 0 < num_rows t2.
Proof.
  unfold rows_and_common.
  rewrite !andb_true_iff, nonempty_true, !Nat.ltb_lt. tauto.
Qed.

Lemma rows_and_common_false t1 t2 :
  rows_and_common t1 t2 = false
  <-> common_cols t1 t2 = [] \/ num_rows t1 = 0 \/ num_rows t2 = 0.
Proof.
  unfold rows_and_common.
  rewrite !andb_false_iff, nonempty_false, !Nat.ltb_ge.
  split; [ intros [[H | H] | H] | intros [H | [H | H]] ]; auto;
    solve [ lia | left; right; lia | right; lia ].
Qed.

Lemma run_skipped t1 t2 l1 l2 :
  rows_and_common t1 t2 = false ->
  run t1 t2 l1 l2 = final_report (pre_state t1 t2 l1 l2).
Proof.
  intro H. rewrite run_unfold, compare_common_cases, H. now rewrite extend_initial_r.
Qed.

Lemma run_unsortable t1 t2 l1 l2 :
  rows_and_common t1 t2 = true ->
  find_sort_column t1 (sorted (common_cols t1 t2)) = Ok None ->
  run t1 t2 l1 l2
  = final_report (extend (pre_state t1 t2 l1 l2) (only_issues [no_sortable_column])).
Proof.
  intros H1 H2. now rewrite run_unfold, compare_common_cases, H1, H2.
Qed.

Lemma run_sort_failed t1 t2 l1 l2 k e :
  rows_and_common t1 t2 = true ->
  find_sort_column t1 (sorted (common_cols t1 t2)) = Ok (Some k) ->
  (sort_by t1 k = Raise e \/ exists s1, sort_by t1 k = Ok s1 /\ sort_by t2 k = Raise e) ->
  run t1 t2 l1 l2
  = final_report (extend (pre_state t1 t2 l1 l2)
                    {| issues := [sorting_error e]; stdout := [SortingBy k]; modes := [] |}).
Proof.
  intros H1 H2 H3. rewrite run_unfold, compare_common_cases, H1, H2, compare_sorted_cases.
  destruct H3 as [-> | (s1 & -> & ->)]; reflexivity.
Qed.

(** ** Checking the Table contract *)

Lemma distinct_NoDup l : distinct l = true <-> NoDup l.
Proof.
  induction l as [| x l IH]; simpl.
  - split; [ constructor | reflexivity ].
  - rewrite andb_true_iff, negb_true_iff, IH. split.
    + intros [H1 H2]. constructor; [ | assumption ].
      intro Hin. assert (existsb (String.eqb x) l = true); [ | congruence ].
      apply existsb_exists. exists x. split; [ assumption | apply String.eqb_refl ].
    + intro H. inversion H as [| ? ? Hx Hl]; subst. split; [ | assumption ].
      destruct (existsb (String.eqb x) l) eqn:E; [ | reflexivity ].
      apply existsb_exists in E as (y & Hy & E). apply String.eqb_eq in E. now subst.
Qed.

Lemma well_formedb_ok t : well_formedb t = true -> well_formed t.
Proof.
  unfold well_formedb, well_formed.
  rewrite andb_true_iff, distinct_NoDup, forallb_forall, Forall_forall.
  intros [H1 H2]. split; [ assumption | ].
  intros c Hc. now apply Nat.eqb_eq, H2.
Qed.

(** * The sort: its failures and its key *)

(** C5. When sorting either table by the chosen key raises, the run returns
    false with exactly one "sorting" issue that carries the exception; the
    issues found before line 69 are all there, in front of it, and no column
    is checked. *)
Theorem sort_failure_is_one_issue (t1 t2 : Table) (l1 l2 k : string) (e : exn) :
  common_cols t1 t2 <> [] -> 0 < num_rows t1 -> 0 < num_rows t2 ->
  find_sort_column t1 (sorted (common_cols t1 t2)) = Ok (Some k) ->
  (sort_by t1 k = Raise e
   \/ exists s1, sort_by t1 k = Ok s1 /\ sort_by t2 k = Raise e) ->
  exists st pre,
    run t1 t2 l1 l2 = (Ok false, st)
    /\ before_comparison t1 t2 l1 l2 initial = (Ok tt, pre)
    /\ issues st = issues pre ++ [ {| type := "sorting"; message := SortingError e |} ]
    /\ count_type "sorting" (issues st) = 1
    /\ count_type "column_values" (issues st) = 0
    /\ (forall c, ~ In (Checking c) (stdout st))
    /\ modes st = [].
Proof.
  intros Hc Hr1 Hr2 Hfind Hsort.
  assert (Hguard : rows_and_common t1 t2 = true) by (apply rows_and_common_true; auto).
  rewrite (run_sort_failed t1 t2 l1 l2 k e Hguard Hfind Hsort), run_reported.
  rewrite before_comparison_run. cbn [issues stdout modes].
  eexists; eexists. split; [ | split; [ reflexivity | ] ].
  - f_equal. f_equal. now destruct (schema_issues t1 t2 l1 l2).
  - cbn [issues stdout modes]. repeat split.
    + rewrite count_type_app, schema_issues_count by discriminate. reflexivity.
    + rewrite count_type_app, schema_issues_count by discriminate. reflexivity.
    + intros c H. apply narration_of_run in H; [ | reflexivity ].
      destruct H as [H | []]. discriminate.
Qed.

Lemma sort_failure_is_one_issue_witness :
  exists st,
    run (one_column "a" int64 [Int 1]) twice_a "A" "B" = (Ok false, st)
    /\ issues st = [ {| type := "sorting";
                        message := SortingError (ArrowInvalid "Multiple matches for FieldRef") |} ].
Proof.
  destruct (sort_failure_is_one_issue (one_column "a" int64 [Int 1]) twice_a "A" "B" "a"
              (ArrowInvalid "Multiple matches for FieldRef"))
    as (st & pre & Hrun & Hpre & Hissues & _).
  - discriminate.
  - simpl; lia.
  - simpl; lia.
  - reflexivity.
  - right. eexists. split; reflexivity.
  - exists st. split; [ exact Hrun | ].
    rewrite Hissues. vm_compute in Hpre. injection Hpre as <-. reflexivity.
Defined.

(** C6. With rows on both sides and common columns that are all nested in
    the first table, the run adds exactly one "sorting" issue saying that no
    sortable column was found, and checks no column; with no common column, or
    no row on one side, the run stops at line 70: the issues are those of the
    row-count and column checks. *)
Theorem unsortable_or_skipped (t1 t2 : Table) (l1 l2 : string) :
  exists pre,
    before_comparison t1 t2 l1 l2 initial = (Ok tt, pre)
    /\ (common_cols t1 t2 <> [] -> 0 < num_rows t1 -> 0 < num_rows t2 ->
        (forall c, In c (common_cols t1 t2) -> nested_in t1 c) ->
        exists st,
          run t1 t2 l1 l2 = (Ok false, st)
          /\ issues st = issues pre ++ [ {| type := "sorting"; message := NoSortableColumn |} ]
          /\ count_type "sorting" (issues st) = 1
          /\ count_type "column_values" (issues st) = 0
          /\ (forall c, ~ In (Checking c) (stdout st)))
    /\ (common_cols t1 t2 = [] \/ num_rows t1 = 0 \/ num_rows t2 = 0 ->
        exists b st,
          run t1 t2 l1 l2 = (Ok b, st)
          /\ issues st = issues pre
          /\ count_type "sorting" (issues st) = 0
          /\ count_type "column_values" (issues st) = 0
          /\ (forall c, ~ In (Checking c) (stdout st))).
Proof.
  rewrite before_comparison_run. eexists. split; [ reflexivity | ].
  cbn [issues]. split.
  - intros Hc Hr1 Hr2 Hnested.
    assert (Hguard : rows_and_common t1 t2 = true) by (apply rows_and_common_true; auto).
    assert (Hfind : find_sort_column t1 (sorted (common_cols t1 t2)) = Ok None).
    { apply find_sort_column_all_nested. intros c Hin. apply Hnested.
      now apply sorted_In. }
    rewrite (run_unsortable t1 t2 l1 l2 Hguard Hfind), run_reported.
    cbn [issues stdout modes only_issues]. eexists. split.
    + f_equal. f_equal. now destruct (schema_issues t1 t2 l1 l2).
    + cbn [issues stdout]. repeat split.
      * rewrite count_type_app, schema_issues_count by discriminate. reflexivity.
      * rewrite count_type_app, schema_issues_count by discriminate. reflexivity.
      * intros c H. apply narration_of_run in H; [ | reflexivity ]. destruct H.
  - intro Hskip. apply rows_and_common_false in Hskip.
    rewrite (run_skipped t1 t2 l1 l2 Hskip), final_report_run.
    eexists; eexists. split; [ reflexivity | ].
    cbn [issues stdout pre_state]. repeat split.
    + apply schema_issues_count; discriminate.
    + apply schema_issues_count; discriminate.
    + intros c H.
      assert (H' : In (Checking c) (summary_lines t1 t2 l1 l2 ++ []
                                    ++ report_lines (schema_issues t1 t2 l1 l2)))
        by exact H.
      apply narration_of_run in H'; [ | reflexivity ]. destruct H'.
Qed.

Lemma unsortable_or_skipped_witness :
  (exists st,
     run (one_column "a" (list_ int64) [List [Int 1]])
         (one_column "a" (list_ int64) [List [Int 2]]) "A" "B" = (Ok false, st)
     /\ issues st = [ {| type := "sorting"; message := NoSortableColumn |} ])
  /\ (exists st,
        run (one_column "a" int64 []) (one_column "a" int64 []) "A" "B" = (Ok true, st)
        /\ issues st = []).
Proof.
  split.
  - destruct (unsortable_or_skipped
                (one_column "a" (list_ int64) [List [Int 1]])
                (one_column "a" (list_ int64) [List [Int 2]]) "A" "B")
      as (pre & Hpre & Hnested & _).
    destruct Hnested as (st & Hrun & Hissues & _).
    + discriminate.
    + simpl; lia.
    + simpl; lia.
    + intros c [<- | []]. exists (list_ int64). split; reflexivity.
    + exists st. split; [ exact Hrun | ].
      rewrite Hissues. vm_compute in Hpre. injection Hpre as <-. reflexivity.
  - destruct (unsortable_or_skipped (one_column "a" int64 []) (one_column "a" int64 []) "A" "B")
      as (pre & Hpre & _ & Hskip).
    destruct Hskip as (b & st & Hrun & Hissues & _).
    + right; left; reflexivity.
    + exists st. vm_compute in Hpre. injection Hpre as <-.
      split; [ | exact Hissues ].
      rewrite Hrun. vm_compute in Hrun. injection Hrun as <- _. reflexivity.
Defined.

Lemma loop_lines_not_sorting s1 s2 cols r d k :
  loop s1 s2 cols initial = (r, d) -> ~ In (SortingBy k) (stdout d).
Proof.
  intros H Hin. destruct (loop_facts _ _ _ _ _ H) as (_ & Hl & _).
  rewrite Forall_forall in Hl. destruct (Hl _ Hin) as [(c & E & _) | [E | E]]; discriminate.
Qed.

Lemma sorting_by_printed t1 t2 l1 l2 k :
  In (SortingBy k) (stdout (snd (run t1 t2 l1 l2)))
  <-> rows_and_common t1 t2 = true
      /\ find_sort_column t1 (sorted (common_cols t1 t2)) = Ok (Some k).
Proof.
  generalize (run_has_shape t1 t2 l1 l2). generalize (run t1 t2 l1 l2).
  intros out H. destruct H as [e Hg Hf | found lines ms Hshape]; cbn [snd stdout].
  - split.
    + unfold pre_state, summary_lines. cbn. intuition discriminate.
    + intros [_ H]. congruence.
  - rewrite narration_of_run by reflexivity.
    destruct Hshape as [Hg | Hg Hf | k' e Hg Hf Hs | k' s1 s2 r d Hg Hf Hs1 Hs2 Hloop].
    + split; [ intros [] | intros [H _]; congruence ].
    + split; [ intros [] | intros [_ H]; congruence ].
    + split.
      * intros [[= <-] | []]. auto.
      * intros [_ H]. left. congruence.
    + split.
      * intros [[= <-] | [H | H]]; auto; [ discriminate | ].
        now apply loop_lines_not_sorting with (k := k) in Hloop.
      * intros [_ H]. left. congruence.
Qed.

Lemma find_sort_column_first t1 t2 k :
  find_sort_column t1 (sorted (common_cols t1 t2)) = Ok (Some k) ->
  first_scalar_common t1 t2 k.
Proof.
  intro H. apply find_sort_column_Some in H as (H1 & H2 & H3).
  - apply sorted_In, common_cols_In in H1 as [Ha Hb].
    repeat split; auto. intros c Hc1 Hc2. apply H3.
    apply sorted_In, common_cols_In. auto.
  - apply sorted_ascending, common_cols_NoDup.
Qed.

Lemma first_scalar_common_unique t1 t2 k k' :
  first_scalar_common t1 t2 k -> first_scalar_common t1 t2 k' -> k = k'.
Proof.
  intros (A1 & A2 & A3 & A4) (B1 & B2 & B3 & B4).
  destruct (name_trichotomy k k') as [H | [H | H]]; [ | assumption | ].
  - exfalso. eapply scalar_not_nested; [ exact A3 | ]. now apply B4.
  - exfalso. eapply scalar_not_nested; [ exact B3 | ]. now apply A4.
Qed.

Lemma first_scalar_common_found t1 t2 k :
  NoDup (column_names t1) -> first_scalar_common t1 t2 k ->
  find_sort_column t1 (sorted (common_cols t1 t2)) = Ok (Some k).
Proof.
  intros Hn Hk.
  destruct (find_sort_column_total t1 (sorted (common_cols t1 t2))) as [[k' |] Hr].
  - intros c Hc. eapply find_sort_column_names; eauto.
  - rewrite Hr. f_equal. f_equal.
    eapply first_scalar_common_unique; [ | exact Hk ].
    now apply find_sort_column_first.
  - exfalso. destruct Hk as (A1 & A2 & A3 & _).
    eapply scalar_not_nested; [ exact A3 | ].
    eapply find_sort_column_None; [ exact Hr | ].
    apply sorted_In, common_cols_In. auto.
Qed.

(** C4. When both tables have rows, the column the run sorts by is the first
    common column, in alphabetical order, whose type in the first table is not
    nested; a nested column is never the sort key. *)
Theorem sort_key_is_first_scalar_common_column (t1 t2 : Table) (l1 l2 k : string) :
  well_formed t1 -> 0 < num_rows t1 -> 0 < num_rows t2 ->
  (In (SortingBy k) (stdout (snd (run t1 t2 l1 l2))) <-> first_scalar_common t1 t2 k)
  /\ (In (SortingBy k) (stdout (snd (run t1 t2 l1 l2))) -> ~ nested_in t1 k).
Proof.
  intros [Hn _] Hr1 Hr2.
  assert (Hiff : In (SortingBy k) (stdout (snd (run t1 t2 l1 l2)))
                 <-> first_scalar_common t1 t2 k).
  { rewrite sorting_by_printed. split.
    - intros [_ H]. now apply find_sort_column_first.
    - intro H. split; [ | now apply first_scalar_common_found ].
      apply rows_and_common_true. repeat split; auto.
      destruct H as (A1 & A2 & _). intro E.
      assert (Hin : In k (common_cols t1 t2)) by (apply common_cols_In; auto).
      rewrite E in Hin. contradiction. }
  split; [ exact Hiff | ].
  intros H Hnested. apply Hiff in H. destruct H as (_ & _ & Hs & _).
  eapply scalar_not_nested; eassumption.
Qed.

Lemma sort_key_is_first_scalar_common_column_witness :
  In (SortingBy "b") (stdout (snd (run nested_then_scalar nested_then_scalar "A" "B")))
  /\ first_scalar_common nested_then_scalar nested_then_scalar "b".
Proof.
  assert (Hwf : well_formed nested_then_scalar)
    by (apply well_formedb_ok; reflexivity).
  destruct (sort_key_is_first_scalar_common_column
              nested_then_scalar nested_then_scalar "A" "B" "b" Hwf) as [Hiff _].
  - simpl; lia.
  - simpl; lia.
  - assert (Hin : In (SortingBy "b")
                    (stdout (snd (run nested_then_scalar nested_then_scalar "A" "B")))).
    { vm_compute. do 5 right. left. reflexivity. }
    split; [ exact Hin | exact (proj1 Hiff Hin) ].
Defined.

(** * Sorting keeps the schema and the cells *)

Lemma mapM_Forall2 {A B} (f : A -> result B) l l' :
  mapM f l = Ok l' <-> Forall2 (fun x y => f x = Ok y) l l'.
Proof.
  revert l'. induction l as [| x l IH]; intro l'; simpl.
  - split; [ intros [= <-]; constructor | intro H; inversion H; reflexivity ].
  - destruct (f x) as [y | e] eqn:E; simpl.
    + destruct (mapM f l) as [ys | e] eqn:E'; simpl.
      * split.
        -- intros [= <-]. constructor; [ assumption | now apply IH ].
        -- intro H. inversion H as [| ? y' ? ys' Hy Hys]; subst.
           apply IH in Hys. congruence.
      * split; [ discriminate | ].
        intro H. inversion H as [| ? y' ? ys' Hy Hys]; subst.
        apply IH in Hys. discriminate.
    + split; [ discriminate | ].
      intro H. inversion H; subst. congruence.
Qed.

Lemma mapM_total {A B} (f : A -> result B) l :
  (forall x, In x l -> exists y, f x = Ok y) -> exists l', mapM f l = Ok l'.
Proof.
  induction l as [| x l IH]; simpl; [ eauto | ].
  intro H. destruct (H x (or_introl eq_refl)) as [y ->]. simpl.
  destruct IH as [ys ->]; [ auto | ]. simpl. eauto.
Qed.

Lemma take_values_spec vs indices vs' :
  take_values vs indices = Ok vs' ->
  length vs' = length indices /\ forall v, In v vs' -> In v vs.
Proof.
  unfold take_values. rewrite mapM_Forall2.
  induction 1 as [| i v indices' vs'' Hi _ IH]; simpl; [ tauto | ].
  destruct IH as [IH1 IH2]. split; [ now rewrite IH1 | ].
  intros w [<- | Hw]; [ | auto ].
  destruct (nth_error vs i) as [u |] eqn:E; [ | discriminate ].
  injection Hi as <-. eapply nth_error_In; eassumption.
Qed.

Lemma take_values_total vs indices :
  (forall i, In i indices -> i < length vs) -> exists vs', take_values vs indices = Ok vs'.
Proof.
  intro H. apply mapM_total. intros i Hi.
  destruct (nth_error vs i) as [v |] eqn:E; [ eauto | ].
  apply nth_error_None in E. specialize (H i Hi). lia.
Qed.

Lemma take_spec t indices s :
  take t indices = Ok s ->
  num_rows s = length indices /\ Forall2 (taken indices) (columns t) (columns s).
Proof.
  unfold take. destruct (mapM (take_column indices) (columns t)) as [cols |] eqn:E;
    simpl; [ | discriminate ].
  intros [= <-]. split; [ reflexivity | ]. simpl.
  apply mapM_Forall2 in E. eapply Forall2_impl; [ | exact E ].
  intros c c'. unfold take_column, taken.
  destruct (take_values (values c) indices) as [vs |]; simpl; [ | discriminate ].
  intros [= <-]. auto.
Qed.

Lemma taken_names indices cols cols' :
  Forall2 (taken indices) cols cols' -> map name cols' = map name cols.
Proof.
  induction 1 as [| c c' cols cols' (H & _) _ IH]; simpl; congruence.
Qed.

Lemma taken_named indices n cols cols' :
  Forall2 (taken indices) cols cols' ->
  Forall2 (taken indices)
    (filter (fun c => String.eqb (name c) n) cols)
    (filter (fun c => String.eqb (name c) n) cols').
Proof.
  induction 1 as [| c c' cols cols' Hc _ IH]; simpl; [ constructor | ].
  destruct Hc as (Hn & Hrest). rewrite Hn.
  destruct (String.eqb (name c) n); [ constructor; [ split | ]; auto | auto ].
Qed.

Lemma sort_by_take t k s :
  sort_by t k = Ok s -> exists indices, take t indices = Ok s.
Proof.
  unfold sort_by. destruct (named k t) as [| c [| ? ?]]; try discriminate.
  destruct (sort_key_indices (dtype c) (values c)) as [indices | e]; [ | discriminate ].
  cbn [rbind]. eauto.
Qed.

Lemma sort_by_names t k s : sort_by t k = Ok s -> column_names s = column_names t.
Proof.
  intro H. apply sort_by_take in H as [indices H].
  apply take_spec in H as [_ H]. now apply taken_names in H.
Qed.

Lemma sort_by_column t k s n c' :
  sort_by t k = Ok s -> column s n = Ok c' ->
  exists c, column t n = Ok c /\ dtype c' = dtype c
            /\ forall v, In v (values c') -> In v (values c).
Proof.
  intros H Hc. apply sort_by_take in H as [indices H].
  apply take_spec in H as [_ H]. apply (taken_named indices n) in H.
  unfold column, named in *.
  destruct (filter _ (columns s)) as [| x [| ? ?]]; try discriminate.
  injection Hc as ->.
  inversion H as [| c ? ? l Hc Hl]; subst. inversion Hl; subst.
  exists c. destruct Hc as (_ & Hd & Hv). repeat split; auto.
  now apply take_values_spec in Hv.
Qed.


Lemma insert_key_In p x l : In p (insert_key x l) <-> p = x \/ In p l.
Proof.
  induction l as [| y l IH]; simpl; [ intuition | ].
  destruct (key_lt (snd y) (snd x)); simpl; rewrite ?IH; intuition.
Qed.

Lemma sort_indices_bound keys i : In i (sort_indices keys) -> i < length keys.
Proof.
  unfold sort_indices, enumerate. intro H.
  apply in_map_iff in H as ([j v] & <- & H). simpl.
  assert (Hin : In (j, v) (combine (seq 0 (length keys)) keys)).
  { revert H. generalize (combine (seq 0 (length keys)) keys) as l.
    induction l as [| y l IH]; simpl; [ tauto | ].
    rewrite insert_key_In. intros [-> | H]; auto. }
  apply in_combine_l, in_seq in Hin. lia.
Qed.

(** Induction on types, through the fields of structs *)
Lemma DataType_nested_ind (P : DataType -> Prop) :
  P int64 -> P float64 -> P string_ -> P bool_ ->
  (forall t, P t -> P (list_ t)) ->
  (forall fields, Forall (fun nt => P (snd nt)) fields -> P (struct fields)) ->
  forall t, P t.
Proof.
  intros Hint64 Hfloat64 Hstring Hbool Hlist Hstruct.
  exact (fix rec (t : DataType) : P t :=
           match t with
           | int64 => Hint64
           | float64 => Hfloat64
           | string_ => Hstring
           | bool_ => Hbool
           | list_ u => Hlist u (rec u)
           | struct fields =>
               Hstruct fields
                 ((fix all (l : list (string * DataType))
                     : Forall (fun nt => P (snd nt)) l :=
                     match l with
                     | [] => Forall_nil _
                     | (n, u) :: l' =>
                         Forall_cons (P := fun nt => P (snd nt)) (n, u)
                           (rec u) (all l')
                     end) fields)
           end).
Qed.

Lemma map_nth_seq {A} (l : list A) (d : A) :
  map (fun i => nth i l d) (seq 0 (length l)) = l.
Proof.
  apply nth_ext with (d := d) (d' := d).
  - now rewrite length_map, length_seq.
  - intros n Hn. rewrite length_map, length_seq in Hn.
    rewrite (nth_indep _ d (nth 0 l d)) by now rewrite length_map, length_seq.
    rewrite (map_nth (fun i => nth i l d)), seq_nth by assumption. reflexivity.
Qed.

Lemma resort_seq keys : resort keys (seq 0 (length keys)) = sort_indices keys.
Proof.
  unfold resort. rewrite map_nth_seq.
  rewrite <- (map_id (sort_indices keys)) at 2. apply map_ext_in.
  intros i Hi. apply sort_indices_bound in Hi. now apply seq_nth.
Qed.

(** A key that is not nested is sorted by its cells. *)
Lemma sort_key_indices_scalar ty keys :
  is_nested ty = false -> sort_key_indices ty keys = Ok (sort_indices keys).
Proof.
  unfold sort_key_indices.
  destruct ty; try discriminate; intros _; cbn [sort_order]; now rewrite resort_seq.
Qed.

Lemma scalar_sortable ty : is_nested ty = false -> sortable ty = true.
Proof. now destruct ty. Qed.

Lemma resort_bound keys order n :
  Forall (fun i => i < n) order -> Forall (fun i => i < n) (resort keys order).
Proof.
  intro H. unfold resort. apply Forall_forall. intros j Hj.
  apply in_map_iff in Hj as (i & <- & Hi). apply sort_indices_bound in Hi.
  rewrite length_map in Hi. rewrite Forall_forall in H. apply H. now apply nth_In.
Qed.

(** The sort succeeds on a key of a type without lists, and what it returns
    are rows of the order it starts from. *)
Lemma sort_order_total ty :
  sortable ty = true ->
  forall keys order n,
    Forall (fun i => i < n) order ->
    exists order', sort_order ty keys order = Ok order'
                   /\ Forall (fun i => i < n) order'.
Proof.
  induction ty as [ | | | | ty _ | fields IH ] using DataType_nested_ind;
    cbn [sortable]; try discriminate;
    try (intros _ keys order n H; cbn [sort_order]; eexists;
         split; [ reflexivity | now apply resort_bound ]).
  intros Hs keys order n H. cbn [sort_order].
  induction IH as [| [f field_ty] fields Hf _ IHfields]; cbn [fold_right].
  - eauto.
  - cbn [forallb] in Hs. apply andb_true_iff in Hs as [Hs1 Hs2].
    destruct (IHfields Hs2) as (o & -> & Ho). cbn [rbind].
    exact (Hf Hs1 (field_cells f keys) o n Ho).
Qed.

(** A key with a list in its type is refused. *)
Lemma sort_order_raises ty keys order e :
  sort_order ty keys order = Raise e ->
  sortable ty = false /\ e = ArrowTypeError "Sorting not supported for type list".
Proof.
  revert keys order.
  induction ty as [ | | | | ty _ | fields IH ] using DataType_nested_ind;
    intros keys order; cbn [sort_order sortable]; try discriminate.
  - intros [= <-]. auto.
  - induction IH as [| [f field_ty] fields Hf _ IHfields]; cbn [fold_right forallb];
      [ discriminate | ].
    cbn [snd] in Hf.
    destruct (fold_right _ (Ok order) fields) as [o | e'] eqn:E; cbn [rbind].
    + intro H. destruct (Hf _ _ H) as [-> ->]. auto.
    + intros [= <-]. destruct (IHfields eq_refl) as [-> ->].
      now rewrite andb_false_r.
Qed.

Lemma sort_by_total t k :
  well_formed t -> sortable_in t k -> exists s, sort_by t k = Ok s.
Proof.
  intros [Hn Hlen] (ty & Hty & Hs).
  pose proof (field_type_Ok _ _ _ Hty) as Hk.
  destruct (named_unique k (columns t) Hn Hk) as (c & Hc & Hin & _).
  assert (ty = dtype c).
  { unfold field_type, named in Hty. rewrite Hc in Hty. congruence. }
  subst ty.
  rewrite Forall_forall in Hlen.
  destruct (sort_order_total (dtype c) Hs (values c) (seq 0 (length (values c)))
              (num_rows t)) as (indices & Hi & Hbound).
  { apply Forall_forall. intros i Hi. apply in_seq in Hi. rewrite <- (Hlen c Hin). lia. }
  unfold sort_by, named. rewrite Hc. unfold sort_key_indices. rewrite Hi. cbn [rbind].
  unfold take.
  destruct (mapM_total (take_column indices) (columns t)) as [cols ->];
    [ | simpl; eauto ].
  intros c' Hc'. unfold take_column.
  destruct (take_values_total (values c') indices) as [vs ->]; [ | simpl; eauto ].
  intros i Hin'. rewrite Forall_forall in Hbound. rewrite (Hlen c' Hc'). auto.
Qed.

(** A struct key is sorted by its first field, then by its second; the null
    struct comes last. *)
Lemma sort_by_struct_key :
  exists s, sort_by struct_keyed "s" = Ok s
            /\ column s "row"
               = Ok {| name := "row"; dtype := int64;
                       values := [Int 3; Int 2; Int 0; Int 1] |}.
Proof. eexists. split; reflexivity. Qed.

(** A key of a list type makes the sort raise. *)
Lemma sort_by_list_key t k c ty :
  column t k = Ok c -> dtype c = list_ ty ->
  sort_by t k = Raise (ArrowTypeError "Sorting not supported for type list").
Proof.
  unfold column, sort_by. destruct (named k t) as [| c' [| ? ?]]; try discriminate.
  intros [= ->] E. unfold sort_key_indices. now rewrite E.
Qed.

Lemma sorted_column t k s n :
  NoDup (column_names t) -> sort_by t k = Ok s -> In n (column_names t) ->
  exists c c', column t n = Ok c /\ column s n = Ok c'
               /\ dtype c' = dtype c
               /\ forall v, In v (values c') -> In v (values c).
Proof.
  intros Hn Hs Hin.
  destruct (column_of_well_formed s n) as (c' & Hc' & _).
  - rewrite (sort_by_names _ _ _ Hs). assumption.
  - rewrite (sort_by_names _ _ _ Hs). assumption.
  - destruct (sort_by_column _ _ _ _ _ Hs Hc') as (c & Hc & Hd & Hv).
    exists c, c'. auto.
Qed.




(** * Every difference becomes an issue *)

Lemma comparison_shape_types t1 t2 found lines ms :
  comparison_shape t1 t2 found lines ms ->
  Forall (fun i => type i = "sorting" \/ type i = "column_values") found.
Proof.
  destruct 1 as [Hg | Hg Hf | k e Hg Hf Hs | k s1 s2 r d Hg Hf Hs1 Hs2 Hloop].
  - constructor.
  - repeat constructor.
  - repeat constructor.
  - apply Forall_app. split.
    + destruct (loop_facts _ _ _ _ _ Hloop) as (Hi & _).
      eapply Forall_impl; [ | exact Hi ]. intros i (Ht & _). auto.
    + destruct r; repeat constructor.
Qed.




(** The run returns when the names of the first table are distinct. *)
Lemma run_returns t1 t2 l1 l2 :
  NoDup (column_names t1) ->
  exists found lines ms,
    comparison_shape t1 t2 found lines ms
    /\ run t1 t2 l1 l2
       = (Ok (negb (nonempty (schema_issues t1 t2 l1 l2 ++ found))),
          {| issues := schema_issues t1 t2 l1 l2 ++ found;
             stdout := summary_lines t1 t2 l1 l2 ++ lines
                       ++ report_lines (schema_issues t1 t2 l1 l2 ++ found);
             modes := ms |}).
Proof.
  intro Hn.
  generalize (run_has_shape t1 t2 l1 l2). generalize (run t1 t2 l1 l2).
  intros out H. destruct H as [e Hg Hf | found lines ms Hshape].
  - exfalso.
    destruct (find_sort_column_total t1 (sorted (common_cols t1 t2))) as [r Hr].
    + intros c Hc. eapply find_sort_column_names; eauto.
    + congruence.
  - eauto.
Qed.


Lemma loop_reports_mismatch s1 s2 cols c : forall r d,
  loop s1 s2 cols initial = (r, d) ->
  In c cols -> compared s1 s2 c false ->
  (exists i, In i (issues d) /\ type i = "column_values"
             /\ (message i = Differences c \/ exists idx, message i = DifferencesAt c idx))
  \/ exists e, r = Raise e.
Proof.
  induction cols as [| x cols IH]; intros r d Hloop Hin Hc; [ destruct Hin | ].
  rewrite loop_cons in Hloop.
  destruct (compare_column s1 s2 x initial) as [[[] | e] d1] eqn:E1.
  2:{ injection Hloop as <- <-. right. eauto. }
  destruct (loop s1 s2 cols initial) as [r2 d2] eqn:E2. cbn [fst snd] in Hloop.
  injection Hloop as <- <-. cbn [extend issues].
  destruct Hin as [-> | Hin].
  - left. destruct Hc as (col1 & col2 & H1 & H2 & H3).
    rewrite compare_column_cases, H1, H2, field_type_column, H1, H3 in E1.
    injection E1 as <-. eexists. split; [ apply in_or_app; left; now left | ].
    split; [ reflexivity | ]. cbn.
    destruct (first_difference (dtype col1) col1 col2); eauto.
  - destruct (IH _ _ eq_refl Hin Hc) as [(i & Hi & Hrest) | He]; [ left | right; assumption ].
    exists i. split; [ apply in_or_app; now right | assumption ].
Qed.



(** The Table contract is needed: for a name that two columns of the first
    table bear, [table1.schema.field] at line 74 raises outside any [try]. *)
Lemma duplicate_name_in_first_table_raises :
  fst (run twice_b twice_b "A" "B") = Raise (KeyError "b").
Proof. reflexivity. Qed.






(** ** Runs that compare every common column *)

Lemma columns_equal_total ty col1 col2 :
  forallb convertible (values col1) = true ->
  forallb convertible (values col2) = true ->
  exists b, columns_equal ty col1 col2 = Ok b.
Proof.
  intros H1 H2. unfold columns_equal, to_pylist. rewrite H1, H2.
  destruct (is_nested ty); simpl; eauto.
Qed.

Lemma forallb_sub {A} (p : A -> bool) l l' :
  (forall x, In x l' -> In x l) -> forallb p l = true -> forallb p l' = true.
Proof.
  rewrite !forallb_forall. auto.
Qed.

Lemma loop_total s1 s2 cols :
  (forall c, In c cols ->
     exists col1 col2,
       column s1 c = Ok col1 /\ column s2 c = Ok col2
       /\ forallb convertible (values col1) = true
       /\ forallb convertible (values col2) = true) ->
  exists d, loop s1 s2 cols initial = (Ok tt, d).
Proof.
  induction cols as [| c cols IH]; intro H.
  - rewrite loop_nil. eauto.
  - rewrite loop_cons, compare_column_cases.
    destruct (H c (or_introl eq_refl)) as (col1 & col2 & E1 & E2 & C1 & C2).
    rewrite E1, E2, field_type_column, E1.
    destruct (columns_equal_total (dtype col1) col1 col2 C1 C2) as [b ->].
    destruct IH as [d Hd]; [ intros; apply H; now right | ].
    rewrite Hd. destruct b; eauto.
Qed.

Lemma sorted_columns_convertible t k s c col :
  cells_convertible t -> sort_by t k = Ok s -> column s c = Ok col ->
  forallb convertible (values col) = true.
Proof.
  intros Hconv Hs Hc.
  destruct (sort_by_column _ _ _ _ _ Hs Hc) as (col0 & Hcol0 & _ & Hv).
  apply column_Ok in Hcol0 as [Hin _].
  unfold cells_convertible in Hconv. rewrite Forall_forall in Hconv.
  eapply forallb_sub; [ exact Hv | auto ].
Qed.

Lemma scalar_in_sortable t c : scalar_in t c -> sortable_in t c.
Proof.
  intros (ty & Hty & N). exists ty. split; [ assumption | now apply scalar_sortable ].
Qed.

(** With rows on both sides, a common column that is not nested in the
    first table, a sort key that the second table can be sorted by and cells
    that convert to Python objects, the run sorts both tables and takes the
    loop to its end. *)
Lemma run_compares t1 t2 l1 l2 :
  well_formed t1 -> well_formed t2 ->
  cells_convertible t1 -> cells_convertible t2 ->
  0 < num_rows t1 -> 0 < num_rows t2 ->
  (exists c, In c (column_names t1) /\ In c (column_names t2) /\ scalar_in t1 c) ->
  (forall k, first_scalar_common t1 t2 k -> sortable_in t2 k) ->
  exists k s1 s2 d,
    find_sort_column t1 (sorted (common_cols t1 t2)) = Ok (Some k)
    /\ sort_by t1 k = Ok s1 /\ sort_by t2 k = Ok s2
    /\ loop s1 s2 (sorted (common_cols t1 t2)) initial = (Ok tt, d)
    /\ run t1 t2 l1 l2
       = (Ok (negb (nonempty (schema_issues t1 t2 l1 l2 ++ issues d))),
          {| issues := schema_issues t1 t2 l1 l2 ++ issues d;
             stdout := summary_lines t1 t2 l1 l2
                       ++ (SortingBy k :: ComparingCommon (length (common_cols t1 t2))
                                       :: stdout d)
                       ++ report_lines (schema_issues t1 t2 l1 l2 ++ issues d);
             modes := modes d |}).
Proof.
  intros [Hn1 Hl1] [Hn2 Hl2] Hc1 Hc2 Hr1 Hr2 (c & Hin1 & Hin2 & Hscalar) Hkey.
  assert (Hc : In c (common_cols t1 t2)) by (apply common_cols_In; auto).
  assert (Hguard : rows_and_common t1 t2 = true).
  { apply rows_and_common_true. repeat split; auto.
    intro E. rewrite E in Hc. contradiction. }
  destruct (find_sort_column_total t1 (sorted (common_cols t1 t2))) as [[k |] Hfind].
  { intros x Hx. eapply find_sort_column_names; eauto. }
  2:{ exfalso. eapply scalar_not_nested; [ exact Hscalar | ].
      eapply find_sort_column_None; [ exact Hfind | ]. now apply sorted_In. }
  pose proof (find_sort_column_first _ _ _ Hfind) as Hfirst.
  pose proof Hfirst as (Hk1 & Hk2 & Hk3 & _).
  destruct (sort_by_total t1 k (conj Hn1 Hl1) (scalar_in_sortable _ _ Hk3)) as [s1 Hs1].
  destruct (sort_by_total t2 k (conj Hn2 Hl2) (Hkey k Hfirst)) as [s2 Hs2].
  destruct (loop_total s1 s2 (sorted (common_cols t1 t2))) as [d Hd].
  { intros x Hx. apply sorted_In, common_cols_In in Hx as [Hx1 Hx2].
    destruct (sorted_column t1 k s1 x Hn1 Hs1 Hx1) as (_ & col1 & _ & E1 & _).
    destruct (sorted_column t2 k s2 x Hn2 Hs2 Hx2) as (_ & col2 & _ & E2 & _).
    exists col1, col2. repeat split; auto.
    - exact (sorted_columns_convertible t1 k s1 x col1 Hc1 Hs1 E1).
    - exact (sorted_columns_convertible t2 k s2 x col2 Hc2 Hs2 E2). }
  exists k, s1, s2, d. repeat split; auto.
  rewrite run_unfold, compare_common_cases, Hguard, Hfind, compare_sorted_cases,
    Hs1, Hs2, Hd. cbn [fst snd]. rewrite run_reported. reflexivity.
Qed.






(** When a is a list column in the second table, the sort by a raises on
    it: the two "columns" issues are followed by a "sorting" issue, and
    neither a nor b is checked. *)
Lemma list_key_in_the_second_table :
  map type (issues (snd (run table_abc table_list_key "A" "B")))
  = ["columns"; "columns"; "sorting"]
  /\ In {| type := "sorting";
           message := SortingError
                        (ArrowTypeError "Sorting not supported for type list") |}
        (issues (snd (run table_abc table_list_key "A" "B")))
  /\ forall c, ~ In (Checking c) (stdout (snd (run table_abc table_list_key "A" "B"))).
Proof.
  split; [ reflexivity | ].
  split; [ vm_compute; do 2 right; left; reflexivity | ].
  intros c H. vm_compute in H.
  repeat (destruct H as [H | H]; [ discriminate | ]). exact H.
Qed.

(** * Equal columns *)

(** Induction on cells, through lists and structs *)
Lemma Value_nested_ind (P : Value -> Prop) :
  P Null ->
  (forall z, P (Int z)) ->
  (forall f, P (Double f)) ->
  (forall s, P (Str s)) ->
  (forall b, P (Bool b)) ->
  (forall items, Forall P items -> P (List items)) ->
  (forall fields, Forall (fun kv => P (snd kv)) fields -> P (Struct fields)) ->
  forall v, P v.
Proof.
  intros HNull HInt HDouble HStr HBool HList HStruct.
  exact (fix rec (v : Value) : P v :=
           match v with
           | Null => HNull
           | Int z => HInt z
           | Double f => HDouble f
           | Str s => HStr s
           | Bool b => HBool b
           | List items =>
               HList items
                 ((fix all (l : list Value) : Forall P l :=
                     match l with
                     | [] => Forall_nil P
                     | x :: l' => Forall_cons x (rec x) (all l')
                     end) items)
           | Struct fields =>
               HStruct fields
                 ((fix all (l : list (string * Value))
                     : Forall (fun kv => P (snd kv)) l :=
                     match l with
                     | [] => Forall_nil _
                     | (k, w) :: l' =>
                         Forall_cons (P := fun kv => P (snd kv)) (k, w)
                           (rec w) (all l')
                     end) fields)
           end).
Qed.

Lemma DataType_eqb_refl t : DataType_eqb t t = true.
Proof.
  induction t as [ | | | | t IH | fields IH ] using DataType_nested_ind;
    try reflexivity; [ exact IH | ].
  cbn [DataType_eqb]. induction IH as [| [n u] l Hu _ IHl]; [ reflexivity | ].
  cbn [snd] in Hu. rewrite String.eqb_refl, Hu, IHl. reflexivity.
Qed.

Lemma DataType_eqb_scalar t u :
  is_nested t = false -> DataType_eqb t u = true -> u = t.
Proof.
  destruct t; try discriminate; destruct u; try discriminate; reflexivity.
Qed.

Lemma SFeqb_refl f : f <> S754_nan -> SFeqb f f = true.
Proof.
  intro H. unfold SFeqb, SFcompare.
  destruct f as [s | s | | s m e]; try reflexivity.
  - now destruct s.
  - contradiction.
  - rewrite Z.compare_refl, Pos.compare_cont_refl. now destruct s.
Qed.

Lemma value_equals_refl v : no_nan v = true -> value_equals v v = true.
Proof.
  induction v as [ | z | f | s | b | items IH | fields IH ] using Value_nested_ind;
    cbn [value_equals no_nan]; intro H.
  - reflexivity.
  - apply Z.eqb_refl.
  - apply SFeqb_refl. intros ->. discriminate.
  - apply String.eqb_refl.
  - apply Bool.eqb_reflx.
  - induction IH as [| x l Hx _ IHl]; [ reflexivity | ].
    cbn [forallb] in H. apply andb_true_iff in H as [H1 H2].
    rewrite (Hx H1), (IHl H2). reflexivity.
  - induction IH as [| [k w] l Hw _ IHl]; [ reflexivity | ].
    cbn [forallb snd] in *. apply andb_true_iff in H as [H1 H2].
    rewrite String.eqb_refl, (Hw H1), (IHl H2). reflexivity.
Qed.

Lemma forall2b_refl {A} (p : A -> A -> bool) l :
  (forall x, In x l -> p x x = true) -> forall2b p l l = true.
Proof.
  induction l as [| x l IH]; simpl; [ reflexivity | ].
  intro H. rewrite (H x (or_introl eq_refl)), IH; auto.
Qed.

Lemma forall2b_Forall2 {A B} (p : A -> B -> bool) l m :
  forall2b p l m = true <-> Forall2 (fun x y => p x y = true) l m.
Proof.
  revert m. induction l as [| x l IH]; destruct m as [| y m]; simpl;
    try (split; [ discriminate | intro H; inversion H ]).
  - split; [ constructor | reflexivity ].
  - rewrite andb_true_iff, IH. split.
    + intros [H1 H2]. now constructor.
    + intro H. inversion H; subst. auto.
Qed.

Lemma forall2b_map {A B} (f : A -> B) (p : B -> B -> bool) l m :
  forall2b p (map f l) (map f m) = forall2b (fun x y => p (f x) (f y)) l m.
Proof.
  revert m. induction l as [| x l IH]; destruct m as [| y m]; simpl; auto.
  now rewrite IH.
Qed.

Lemma assoc_distinct {A} (d : list (string * A)) k v :
  distinct (map fst d) = true -> In (k, v) d -> assoc k d = Some v.
Proof.
  induction d as [| [k' v'] d IH]; simpl; [ tauto | ].
  rewrite andb_true_iff, negb_true_iff. intros [Hk Hd] [[= -> ->] | Hin].
  - now rewrite String.eqb_refl.
  - destruct (String.eqb_spec k k') as [-> | _]; [ | auto ].
    exfalso. assert (existsb (String.eqb k') (map fst d) = true); [ | congruence ].
    apply existsb_exists. exists k'. split; [ | apply String.eqb_refl ].
    apply in_map_iff. exists (k', v). auto.
Qed.

Lemma py_eq_dict d e :
  py_eq (PyDict d) (PyDict e) = Nat.eqb (length d) (length e) && entries_eq e d.
Proof.
  cbn [py_eq]. f_equal. unfold entries_eq.
  induction d as [| [k v] d IH]; [ reflexivity | ].
  cbn [forallb]. now rewrite <- IH.
Qed.

Lemma py_eq_list xs ys : py_eq (PyList xs) (PyList ys) = forall2b py_eq xs ys.
Proof.
  cbn [py_eq]. revert ys. induction xs as [| x xs IH]; destruct ys as [| y ys];
    try reflexivity.
  cbn [forall2b]. now rewrite <- IH.
Qed.

Lemma py_eq_refl v :
  no_nan v = true -> convertible v = true -> py_eq (as_py v) (as_py v) = true.
Proof.
  induction v as [ | z | f | s | b | items IH | fields IH ] using Value_nested_ind;
    cbn [as_py no_nan convertible]; intros Hn Hc.
  - reflexivity.
  - apply Z.eqb_refl.
  - apply SFeqb_refl. intros ->. discriminate.
  - apply String.eqb_refl.
  - apply Z.eqb_refl.
  - rewrite py_eq_list.
    induction IH as [| x l Hx _ IHl]; [ reflexivity | ].
    cbn [forallb map forall2b] in *.
    apply andb_true_iff in Hn as [Hn1 Hn2]. apply andb_true_iff in Hc as [Hc1 Hc2].
    rewrite (Hx Hn1 Hc1), (IHl Hn2 Hc2). reflexivity.
  - apply andb_true_iff in Hc as [Hd Hc].
    rewrite py_eq_dict, Nat.eqb_refl. cbn [andb].
    assert (Hassoc : forall k w, In (k, w) fields ->
              assoc k (map (fun '(k, w) => (k, as_py w)) fields) = Some (as_py w)).
    { intros k w Hin. apply assoc_distinct.
      - rewrite map_map.
        erewrite map_ext; [ exact Hd | ]. now intros [k' w'].
      - apply in_map_iff. exists (k, w). auto. }
    revert Hassoc. generalize (map (fun '(k, w) => (k, as_py w)) fields) at 1 2 as e.
    intros e Hassoc. unfold entries_eq. clear Hd.
    induction IH as [| [k w] l Hw _ IHl]; [ reflexivity | ].
    cbn [forallb map snd] in *.
    apply andb_true_iff in Hn as [Hn1 Hn2]. apply andb_true_iff in Hc as [Hc1 Hc2].
    rewrite (Hassoc k w (or_introl eq_refl)), (Hw Hn1 Hc1). cbn [andb].
    apply IHl; auto. intros k' w' Hin. apply Hassoc. now right.
Qed.

Lemma value_equals_null a b :
  value_equals a b = true -> (a = Null <-> b = Null).
Proof.
  destruct a, b; cbn [value_equals]; intro H; try discriminate;
    split; intro E; try reflexivity; discriminate.
Qed.

Lemma columns_equal_true col1 col2 :
  columns_equal (dtype col1) col1 col2 = Ok true -> pairwise_equal col1 col2.
Proof.
  unfold columns_equal, pairwise_equal, same_cell.
  destruct (is_nested (dtype col1)) eqn:N.
  - unfold to_pylist.
    destruct (forallb convertible (values col1)); [ | discriminate ].
    destruct (forallb convertible (values col2)); [ | discriminate ].
    cbn [rbind]. intros [= H]. split; [ discriminate | ].
    unfold py_list_eq in H. rewrite forall2b_map in H.
    now apply forall2b_Forall2 in H.
  - intros [= H]. unfold equals in H. apply andb_true_iff in H as [Ht Hv].
    split.
    + intros _. now apply DataType_eqb_scalar.
    + apply forall2b_Forall2 in Hv. eapply Forall2_impl; [ | exact Hv ].
      intros a b E. split; [ now apply value_equals_null | assumption ].
Qed.

Lemma columns_equal_refl ty col :
  forallb no_nan (values col) = true ->
  forallb convertible (values col) = true ->
  columns_equal ty col col = Ok true.
Proof.
  intros Hn Hc. unfold columns_equal, to_pylist, equals, py_list_eq.
  rewrite Hc. rewrite forallb_forall in Hn, Hc.
  destruct (is_nested ty); cbn [rbind]; f_equal.
  - rewrite forall2b_map. apply forall2b_refl.
    intros v Hv. apply py_eq_refl; auto.
  - rewrite DataType_eqb_refl. cbn [andb]. apply forall2b_refl.
    intros v Hv. apply value_equals_refl; auto.
Qed.

Lemma schema_issues_nil t1 t2 l1 l2 :
  schema_issues t1 t2 l1 l2 = [] ->
  num_rows t1 = num_rows t2
  /\ forall c, In c (column_names t1) <-> In c (column_names t2).
Proof.
  unfold schema_issues, only_if. intro H.
  destruct (num_rows t1 =? num_rows t2) eqn:E; [ | discriminate ].
  destruct (nonempty (cols_only_in_1 t1 t2)) eqn:E1; [ discriminate | ].
  destruct (nonempty (cols_only_in_2 t1 t2)) eqn:E2; [ discriminate | ].
  apply Nat.eqb_eq in E. apply nonempty_false in E1, E2.
  split; [ assumption | ].
  intro c. split; intro Hc.
  - destruct (in_dec string_dec c (column_names t2)) as [Hin | Hout]; [ assumption | ].
    assert (Hc' : In c (cols_only_in_1 t1 t2)) by (apply cols_only_in_1_In; auto).
    rewrite E1 in Hc'. contradiction.
  - destruct (in_dec string_dec c (column_names t1)) as [Hin | Hout]; [ assumption | ].
    assert (Hc' : In c (cols_only_in_2 t1 t2)) by (apply cols_only_in_2_In; auto).
    rewrite E2 in Hc'. contradiction.
Qed.

(** C1. When the call returns true on well-formed tables, [issues] is empty,
    the row counts are equal, the column names are the same, and every common
    column is equal position by position once both tables are sorted by the
    first scalar common column; with no row or no column there is nothing
    to sort, and every column is empty or there is none. *)
Theorem true_verdict_means_equal_tables (t1 t2 : Table) (l1 l2 : string) (st : State) :
  well_formed t1 -> well_formed t2 ->
  run t1 t2 l1 l2 = (Ok true, st) ->
  issues st = []
  /\ num_rows t1 = num_rows t2
  /\ (forall c, In c (column_names t1) <-> In c (column_names t2))
  /\ ((num_rows t1 = 0
       /\ forall col, In col (columns t1) \/ In col (columns t2) -> values col = [])
      \/ (columns t1 = [] /\ columns t2 = [])
      \/ exists k s1 s2,
           first_scalar_common t1 t2 k
           /\ sort_by t1 k = Ok s1 /\ sort_by t2 k = Ok s2
           /\ forall c, In c (column_names t1) ->
                exists col1 col2,
                  column s1 c = Ok col1 /\ column s2 c = Ok col2
                  /\ pairwise_equal col1 col2).
Proof.
  intros [Hn1 Hl1] [Hn2 Hl2].
  generalize (run_has_shape t1 t2 l1 l2). generalize (run t1 t2 l1 l2).
  intros out H Hout. destruct H as [e Hg Hf | found lines ms Hshape]; [ discriminate | ].
  injection Hout as Hb <-. cbn [issues].
  apply negb_true_iff, nonempty_false in Hb. rewrite Hb.
  apply app_eq_nil in Hb as [Hschema Hfound].
  destruct (schema_issues_nil _ _ _ _ Hschema) as [Hrows Hnames].
  split; [ reflexivity | ]. split; [ assumption | ]. split; [ assumption | ].
  destruct Hshape as [Hg | Hg Hf | k e Hg Hf Hs | k s1 s2 r d Hg Hf Hs1 Hs2 Hloop];
    try discriminate.
  - apply rows_and_common_false in Hg.
    assert (Hzero : num_rows t1 = 0 \/ common_cols t1 t2 = [])
      by (destruct Hg as [Hg | [Hg | Hg]]; auto; left; congruence).
    destruct Hzero as [Hzero | Hnone].
    + left. split; [ assumption | ].
      rewrite Forall_forall in Hl1, Hl2.
      intros col [Hc | Hc]; apply length_zero_iff_nil.
      * rewrite (Hl1 col Hc). assumption.
      * rewrite (Hl2 col Hc). congruence.
    + right; left.
      assert (E1 : column_names t1 = []).
      { destruct (column_names t1) as [| c l] eqn:E; [ reflexivity | exfalso ].
        assert (Hc : In c (common_cols t1 t2)).
        { apply common_cols_In. rewrite <- Hnames, E. split; now left. }
        rewrite Hnone in Hc. contradiction. }
      assert (E2 : column_names t2 = []).
      { destruct (column_names t2) as [| c l] eqn:E; [ reflexivity | exfalso ].
        assert (Hc : In c (column_names t1)) by (apply Hnames; now left).
        rewrite E1 in Hc. contradiction. }
      split; eapply map_eq_nil; eassumption.
  - right; right. apply app_eq_nil in Hfound as [Hd Hr].
    destruct r as [[] | e]; [ | discriminate ].
    destruct (loop_facts _ _ _ _ _ Hloop) as (_ & _ & _ & _ & Hall).
    exists k, s1, s2. split; [ now apply find_sort_column_first | ].
    split; [ assumption | ]. split; [ assumption | ].
    intros c Hc.
    destruct (Hall eq_refl Hd c) as (col1 & col2 & E1 & E2 & Heq).
    + apply sorted_In, common_cols_In. split; [ assumption | now apply Hnames ].
    + exists col1, col2. repeat split; auto; now apply columns_equal_true.
Qed.

Lemma true_verdict_means_equal_tables_witness :
  fst (run reordered_1 reordered_2 "A" "B") = Ok true
  /\ num_rows reordered_1 = num_rows reordered_2
  /\ (forall c, In c (column_names reordered_1) <-> In c (column_names reordered_2)).
Proof.
  destruct (true_verdict_means_equal_tables reordered_1 reordered_2 "A" "B"
              (snd (run reordered_1 reordered_2 "A" "B")))
    as (_ & Hrows & Hnames & _).
  - apply well_formedb_ok; reflexivity.
  - apply well_formedb_ok; reflexivity.
  - vm_compute. reflexivity.
  - split; [ vm_compute; reflexivity | ]. split; [ exact Hrows | exact Hnames ].
Defined.

(** ** A table against itself *)

Lemma difference_self a : difference a a = [].
Proof.
  unfold difference.
  assert (H : forall l, (forall x, In x l -> In x a) ->
                        filter (fun x => negb (mem x a)) l = []).
  { induction l as [| x l IH]; intro Hl; simpl; [ reflexivity | ].
    assert (Hx : mem x a = true) by (apply mem_In, Hl; now left).
    rewrite Hx. simpl. apply IH. intros y Hy. apply Hl. now right. }
  apply H. auto.
Qed.

Lemma schema_issues_self t l1 l2 : schema_issues t t l1 l2 = [].
Proof.
  unfold schema_issues, cols_only_in_1, cols_only_in_2.
  now rewrite Nat.eqb_refl, difference_self.
Qed.

Lemma loop_all_equal s1 s2 cols :
  (forall c, In c cols -> compared s1 s2 c true) ->
  exists d, loop s1 s2 cols initial = (Ok tt, d) /\ issues d = [].
Proof.
  induction cols as [| c cols IH]; intro H.
  - rewrite loop_nil. eauto.
  - rewrite loop_cons, compare_column_cases.
    destruct (H c (or_introl eq_refl)) as (col1 & col2 & E1 & E2 & E3).
    rewrite E1, E2, field_type_column, E1, E3.
    destruct IH as (d & Hd & Hi); [ intros; apply H; now right | ].
    rewrite Hd. eexists. split; [ reflexivity | ]. cbn. assumption.
Qed.

(** C7, as far as it holds.  A well-formed table that has no row, or no
    column, or a column that is not nested, and whose cells hold no NaN and
    convert to Python objects, compared with itself gives true and no
    issue. *)
Theorem reflexive_on_sortable_tables (t : Table) (l1 l2 : string) :
  well_formed t -> cells_convertible t -> nan_free t ->
  (num_rows t = 0 \/ columns t = [] \/ exists c, scalar_in t c) ->
  exists st, run t t l1 l2 = (Ok true, st) /\ issues st = [].
Proof.
  intros Hwf Hconv Hnan Hsortable.
  destruct (rows_and_common t t) eqn:Hguard.
  - apply rows_and_common_true in Hguard as (Hcommon & Hrows & _).
    assert (Hscalar : exists c, In c (column_names t) /\ In c (column_names t)
                                /\ scalar_in t c).
    { destruct Hsortable as [H | [H | (c & Hc)]].
      - lia.
      - exfalso. apply Hcommon. unfold common_cols, column_names. now rewrite H.
      - exists c. destruct Hc as (ty & Hty & N).
        pose proof (field_type_Ok _ _ _ Hty). repeat split; auto.
        exists ty; auto. }
    destruct (run_compares t t l1 l2 Hwf Hwf Hconv Hconv Hrows Hrows Hscalar)
      as (k & s1 & s2 & d & _ & Hs1 & Hs2 & Hloop & Hrun).
    { intros k (_ & _ & Hk & _). now apply scalar_in_sortable. }
    assert (s2 = s1) by congruence. subst s2.
    destruct (loop_all_equal s1 s1 (sorted (common_cols t t))) as (d' & Hd' & Hnil).
    { intros c Hc. apply sorted_In, common_cols_In in Hc as [Hc _].
      destruct Hwf as [Hn _].
      destruct (sorted_column t k s1 c Hn Hs1 Hc) as (col & col' & Ecol & Ecol' & _ & Hv).
      exists col', col'. repeat split; auto.
      apply column_Ok in Ecol as [Hin _].
      unfold cells_convertible, nan_free in *. rewrite Forall_forall in Hconv, Hnan.
      apply columns_equal_refl; eapply forallb_sub; eauto. }
    assert (d' = d) by congruence. subst d'.
    rewrite Hrun, schema_issues_self, Hnil. cbn. eauto.
  - rewrite (run_skipped t t l1 l2 Hguard), final_report_run.
    cbn [issues pre_state]. rewrite schema_issues_self. cbn. eauto.
Qed.

(** C7 as stated fails: a table whose columns are all nested, with a row, is
    reported to differ from itself. *)
Lemma reflexivity_needs_a_scalar_column :
  ~ (forall t l1 l2, well_formed t ->
       exists st, run t t l1 l2 = (Ok true, st) /\ issues st = []).
Proof.
  intro H. destruct (H only_nested "A" "B") as (st & Hrun & _).
  - apply well_formedb_ok; reflexivity.
  - vm_compute in Hrun. discriminate.
Qed.

(** Nor is a table that holds a NaN equal to itself. *)
Lemma reflexivity_needs_no_nan :
  fst (run only_nan only_nan "A" "B") = Ok false
  /\ issues (snd (run only_nan only_nan "A" "B"))
     = [ {| type := "column_values"; message := DifferencesAt "a" 0 |} ].
Proof. split; reflexivity. Qed.

Lemma reflexive_on_sortable_tables_witness :
  exists st, run reordered_1 reordered_1 "A" "B" = (Ok true, st) /\ issues st = [].
Proof.
  apply (reflexive_on_sortable_tables reordered_1 "A" "B").
  - apply well_formedb_ok; reflexivity.
  - repeat constructor.
  - repeat constructor.
  - right; right. exists "id", int64. split; reflexivity.
Defined.

(** ** The first differing row *)

(** The example of C3: values 1, 2, 3 against 1, 2, 99. *)
Lemma first_difference_at_row_2 :
  run one_two_three one_two_ninety_nine "A" "B"
  = (Ok false,
     {| issues := [ {| type := "column_values"; message := DifferencesAt "a" 2 |} ];
        stdout := summary_lines one_two_three one_two_ninety_nine "A" "B"
                  ++ [SortingBy "a"; ComparingCommon 1; Checking "a"; PrintMISMATCH]
                  ++ report_lines
                       [ {| type := "column_values"; message := DifferencesAt "a" 2 |} ];
        modes := [("a", ArrowEquals)] |}).
Proof. reflexivity. Qed.

(** C3, where the code departs from it.  Sorted by "a" the two columns are
    1, null and 1, 2: they agree at row 0 and differ in null-ness at row 1.
    One "column_values" issue is reported, and the row it names is -1: the
    mask of [pc.not_equal] is null at row 1, and [pc.index] looks for true. *)
Theorem first_difference_misses_null_rows :
  sort_by one_null "a" = Ok one_null
  /\ sort_by one_two "a" = Ok one_two
  /\ pc_not_equal {| name := "a"; dtype := int64; values := [Int 1; Null] |}
                  {| name := "a"; dtype := int64; values := [Int 1; Int 2] |}
     = Ok [Some false; None]
  /\ issues (snd (run one_null one_two "A" "B"))
     = [ {| type := "column_values"; message := DifferencesAt "a" (-1) |} ].
Proof. repeat split; reflexivity. Qed.

(** On a nested column the same difference is found at row 1. *)
Lemma first_difference_of_nested_columns :
  issues (snd (run (table_of [ {| name := "a"; dtype := int64; values := [Int 1; Int 2] |};
                               {| name := "l"; dtype := list_ int64;
                                  values := [List [Int 1]; Null] |} ])
                   (table_of [ {| name := "a"; dtype := int64; values := [Int 1; Int 2] |};
                               {| name := "l"; dtype := list_ int64;
                                  values := [List [Int 1]; List [Int 2]] |} ])
                   "A" "B"))
  = [ {| type := "column_values"; message := DifferencesAt "l" 1 |} ].
Proof. reflexivity. Qed.

(** A table with one row less: the row count is reported, and so is the
    column, without a row, since [pc.not_equal] refuses columns of different
    lengths. *)
Lemma one_row_less :
  issues (snd (run three_rows (remove_row 2 three_rows) "A" "B"))
  = [ {| type := "row_count"; message := RowCountMismatch "A" 3 "B" 2 |};
      {| type := "column_values"; message := Differences "a" |} ].
Proof. reflexivity. Qed.

(** * More about [compare_tables] *)

(** ** What the labels change *)

Lemma schema_issues_labels t1 t2 l1 l2 l1' l2' :
  map type (schema_issues t1 t2 l1 l2) = map type (schema_issues t1 t2 l1' l2').
Proof.
  unfold schema_issues, only_if.
  destruct (negb (num_rows t1 =? num_rows t2));
    destruct (nonempty (cols_only_in_1 t1 t2));
    destruct (nonempty (cols_only_in_2 t1 t2)); reflexivity.
Qed.

Lemma schema_issues_beyond t1 t2 l1 l2 :
  filter beyond_schema (schema_issues t1 t2 l1 l2) = [].
Proof.
  unfold schema_issues, only_if.
  destruct (negb (num_rows t1 =? num_rows t2));
    destruct (nonempty (cols_only_in_1 t1 t2));
    destruct (nonempty (cols_only_in_2 t1 t2)); reflexivity.
Qed.

Lemma nonempty_map {A B} (f : A -> B) l : nonempty (map f l) = nonempty l.
Proof. now destruct l. Qed.

(** X1. The labels reach the messages of the row-count and column issues
    and nothing else: with other labels the verdict, the types of the issues
    in order, the issues of the comparison itself and the way each column
    was compared are the same. *)
Theorem labels_only_reach_messages (t1 t2 : Table) (l1 l2 l1' l2' : string) :
  fst (run t1 t2 l1 l2) = fst (run t1 t2 l1' l2')
  /\ map type (issues (snd (run t1 t2 l1 l2)))
     = map type (issues (snd (run t1 t2 l1' l2')))
  /\ filter beyond_schema (issues (snd (run t1 t2 l1 l2)))
     = filter beyond_schema (issues (snd (run t1 t2 l1' l2')))
  /\ modes (snd (run t1 t2 l1 l2)) = modes (snd (run t1 t2 l1' l2')).
Proof.
  rewrite !run_unfold.
  destruct (compare_common t1 t2 initial) as [[u | e] d].
  - rewrite !run_reported. cbn [fst snd issues modes].
    rewrite <- !(nonempty_map type), !map_app, !filter_app, !schema_issues_beyond.
    rewrite (schema_issues_labels t1 t2 l1 l2 l1' l2'). auto.
  - cbn [fst snd extend issues modes pre_state].
    rewrite !map_app, !filter_app, !schema_issues_beyond.
    rewrite (schema_issues_labels t1 t2 l1 l2 l1' l2'). auto.
Qed.

(** ** The order of the issues *)

Lemma StronglySorted_app {A} (R : A -> A -> Prop) l m :
  StronglySorted R l -> StronglySorted R m ->
  (forall x y, In x l -> In y m -> R x y) ->
  StronglySorted R (l ++ m).
Proof.
  induction 1 as [| x l Hl IH Hx]; intros Hm Hlm; simpl; [ assumption | ].
  constructor.
  - apply IH; [ assumption | ]. intros a b Ha Hb. apply Hlm; [ now right | assumption ].
  - apply Forall_app. split; [ assumption | ].
    apply Forall_forall. intros y Hy. apply Hlm; [ now left | assumption ].
Qed.

Lemma StronglySorted_same {A} (f : A -> nat) (n : nat) l :
  Forall (fun x => f x = n) l -> StronglySorted (fun x y => f x <= f y) l.
Proof.
  induction 1 as [| x l Hx Hl IH]; constructor; [ assumption | ].
  eapply Forall_impl; [ | exact Hl ]. intros y Hy. cbn in Hy. lia.
Qed.

Lemma schema_issues_staged t1 t2 l1 l2 :
  StronglySorted (fun i j => stage i <= stage j) (schema_issues t1 t2 l1 l2)
  /\ Forall (fun i => stage i <= 1) (schema_issues t1 t2 l1 l2)
  /\ count_type "columns" (schema_issues t1 t2 l1 l2) <= 2.
Proof.
  unfold schema_issues, only_if.
  destruct (negb (num_rows t1 =? num_rows t2));
    destruct (nonempty (cols_only_in_1 t1 t2));
    destruct (nonempty (cols_only_in_2 t1 t2)); cbn;
    repeat split; repeat constructor.
Qed.

Lemma loop_issues_staged s1 s2 cols r d :
  loop s1 s2 cols initial = (r, d) -> Forall (fun i => stage i = 2) (issues d).
Proof.
  intro H. destruct (loop_facts _ _ _ _ _ H) as (Hi & _).
  eapply Forall_impl; [ | exact Hi ]. intros i (Ht & _).
  unfold stage. now rewrite Ht.
Qed.

Lemma comparison_shape_staged t1 t2 found lines ms :
  comparison_shape t1 t2 found lines ms ->
  StronglySorted (fun i j => stage i <= stage j) found
  /\ Forall (fun i => 2 <= stage i) found
  /\ count_type "sorting" found <= 1
  /\ (forall i, In i found -> type i = "sorting" -> exists before, found = before ++ [i]).
Proof.
  destruct 1 as [Hg | Hg Hf | k e Hg Hf Hs | k s1 s2 r d Hg Hf Hs1 Hs2 Hloop].
  - split; [ constructor | split; [ constructor | split; [ cbn; lia | intros i [] ] ] ].
  - split; [ repeat constructor | split; [ repeat constructor | split; [ cbn; lia | ] ] ].
    intros i [<- | []] _. now exists [].
  - split; [ repeat constructor | split; [ repeat constructor | split; [ cbn; lia | ] ] ].
    intros i [<- | []] _. now exists [].
  - pose proof (loop_issues_staged _ _ _ _ _ Hloop) as Hst.
    assert (Hcount : count_type "sorting" (issues d) = 0).
    { apply count_type_none. eapply Forall_impl; [ | exact Hst ].
      intros i Hi E. unfold stage in Hi. rewrite E in Hi. discriminate. }
    split; [ | split; [ | split ] ].
    + apply StronglySorted_app.
      * eapply StronglySorted_same; eassumption.
      * destruct r; repeat constructor.
      * rewrite Forall_forall in Hst. intros x y Hx Hy. rewrite (Hst x Hx).
        destruct r; [ destruct Hy | ]. destruct Hy as [<- | []]. cbn. lia.
    + apply Forall_app. split.
      * eapply Forall_impl; [ | exact Hst ]. intros i Hi. cbn in Hi. lia.
      * destruct r; repeat constructor.
    + rewrite count_type_app, Hcount. destruct r; cbn; lia.
    + intros i Hin Hty. apply in_app_or in Hin as [Hin | Hin].
      * exfalso. rewrite Forall_forall in Hst. specialize (Hst i Hin).
        unfold stage in Hst. rewrite Hty in Hst. discriminate.
      * destruct r; [ destruct Hin | ]. destruct Hin as [<- | []]. eauto.
Qed.

(** X2. The issues come in the order of the steps: the row-count issue, the
    column issues, the column-value issues, the sorting issue.  There is at
    most one row-count issue, at most two column issues and at most one
    sorting issue, and a sorting issue is the last of the list. *)
Theorem issues_follow_the_steps (t1 t2 : Table) (l1 l2 : string) :
  StronglySorted (fun i j => stage i <= stage j) (issues (snd (run t1 t2 l1 l2)))
  /\ count_type "row_count" (issues (snd (run t1 t2 l1 l2))) <= 1
  /\ count_type "columns" (issues (snd (run t1 t2 l1 l2))) <= 2
  /\ count_type "sorting" (issues (snd (run t1 t2 l1 l2))) <= 1
  /\ (forall i, In i (issues (snd (run t1 t2 l1 l2))) -> type i = "sorting" ->
      exists before, issues (snd (run t1 t2 l1 l2)) = before ++ [i]).
Proof.
  destruct (schema_issues_staged t1 t2 l1 l2) as (S1 & S2 & S3).
  assert (Hrc : count_type "row_count" (schema_issues t1 t2 l1 l2) <= 1)
    by (rewrite schema_issues_row_count; destruct (num_rows t1 =? num_rows t2); lia).
  assert (Hsort : forall i, In i (schema_issues t1 t2 l1 l2) -> type i <> "sorting").
  { intros i Hi E. rewrite Forall_forall in S2. specialize (S2 i Hi).
    unfold stage in S2. rewrite E in S2. cbn in S2. lia. }
  generalize (run_has_shape t1 t2 l1 l2). generalize (run t1 t2 l1 l2).
  intros out H. destruct H as [e Hg Hf | found lines ms Hshape]; cbn [snd issues pre_state].
  - split; [ | split; [ | split; [ | split ] ] ]; auto.
    + rewrite schema_issues_count by discriminate. lia.
    + intros i Hi E. now apply Hsort in Hi.
  - destruct (comparison_shape_staged _ _ _ _ _ Hshape) as (F1 & F2 & F3 & F4).
    pose proof (comparison_shape_types _ _ _ _ _ Hshape) as Ft.
    assert (Hnone : forall ty, ty <> "sorting" -> ty <> "column_values" ->
                               count_type ty found = 0).
    { intros ty N1 N2. apply count_type_none.
      eapply Forall_impl; [ | exact Ft ]. intros i [E | E]; congruence. }
    split; [ | split; [ | split; [ | split ] ] ].
    + apply StronglySorted_app; auto.
      rewrite Forall_forall in S2, F2. intros x y Hx Hy.
      specialize (S2 x Hx). specialize (F2 y Hy). cbn in *. lia.
    + rewrite count_type_app, Hnone by discriminate. lia.
    + rewrite count_type_app, Hnone by discriminate. lia.
    + rewrite count_type_app, schema_issues_count by discriminate. lia.
    + intros i Hin Hty. apply in_app_or in Hin as [Hin | Hin].
      * now apply Hsort in Hin.
      * destruct (F4 i Hin Hty) as [before ->].
        exists (schema_issues t1 t2 l1 l2 ++ before). now rewrite app_assoc.
Qed.

(** ** The columns reported *)

Lemma reported_columns_app a b :
  reported_columns (a ++ b) = reported_columns a ++ reported_columns b.
Proof. apply flat_map_app. Qed.

Lemma reported_columns_none found :
  Forall (fun i => type i <> "column_values") found -> reported_columns found = [].
Proof.
  induction 1 as [| i l Hi Hl IH]; [ reflexivity | ].
  cbn. unfold reported_column.
  destruct (String.eqb_spec (type i) "column_values"); [ contradiction | assumption ].
Qed.

Lemma compare_column_reported s1 s2 c r d :
  compare_column s1 s2 c initial = (r, d) ->
  reported_columns (issues d) = [] \/ reported_columns (issues d) = [c].
Proof.
  rewrite compare_column_cases.
  destruct (column s1 c) as [col1 | e]; [ | intros [= <- <-]; now left ].
  destruct (column s2 c) as [col2 | e]; [ | intros [= <- <-]; now left ].
  destruct (field_type s1 c) as [ty | e]; [ | intros [= <- <-]; now left ].
  destruct (columns_equal ty col1 col2) as [[|] | e]; intros [= <- <-];
    [ now left | right | now left ].
  cbn. unfold reported_column, column_values_issue. cbn.
  now destruct (first_difference ty col1 col2).
Qed.

Lemma loop_reported s1 s2 cols : forall r d,
  ascending cols ->
  loop s1 s2 cols initial = (r, d) ->
  ascending (reported_columns (issues d))
  /\ Forall (fun c => In c cols) (reported_columns (issues d)).
Proof.
  induction cols as [| c cols IH]; intros r d Hasc.
  - rewrite loop_nil. intros [= <- <-]. split; constructor.
  - rewrite loop_cons. inversion Hasc as [| ? ? Hafter Hasc']; subst.
    destruct (compare_column s1 s2 c initial) as [[[] | e] d1] eqn:E1.
    + destruct (loop s1 s2 cols initial) as [r2 d2] eqn:E2. cbn [fst snd].
      intros [= <- <-]. cbn [extend issues]. rewrite reported_columns_app.
      destruct (IH _ _ Hasc' eq_refl) as (A1 & A2).
      assert (A3 : Forall (fun x => In x (c :: cols)) (reported_columns (issues d2)))
        by (eapply Forall_impl; [ | exact A2 ]; intros x Hx; now right).
      destruct (compare_column_reported _ _ _ _ _ E1) as [-> | ->]; cbn [app].
      * auto.
      * split; [ | constructor; [ now left | assumption ] ].
        constructor; [ | assumption ].
        unfold all_after in *. rewrite Forall_forall in *. auto.
    + intros [= <- <-].
      destruct (compare_column_reported _ _ _ _ _ E1) as [-> | ->].
      * split; constructor.
      * split; repeat constructor.
Qed.

Lemma ascending_NoDup l : ascending l -> NoDup l.
Proof.
  induction 1 as [| x l Hx Hl IH]; constructor; [ | assumption ].
  intro Hin. unfold all_after in Hx. rewrite Forall_forall in Hx.
  exact (name_lt_irrefl x (Hx x Hin)).
Qed.

(** X3. The column-value issues name common columns in alphabetical order,
    each column at most once. *)
Theorem columns_are_reported_once_in_order (t1 t2 : Table) (l1 l2 : string) :
  ascending (reported_columns (issues (snd (run t1 t2 l1 l2))))
  /\ NoDup (reported_columns (issues (snd (run t1 t2 l1 l2))))
  /\ (forall c, In c (reported_columns (issues (snd (run t1 t2 l1 l2)))) ->
      In c (column_names t1) /\ In c (column_names t2)).
Proof.
  assert (Hschema : reported_columns (schema_issues t1 t2 l1 l2) = []).
  { apply reported_columns_none.
    eapply Forall_impl; [ | apply schema_issues_types ].
    intros i [E | E]; rewrite E; discriminate. }
  assert (H : ascending (reported_columns (issues (snd (run t1 t2 l1 l2))))
              /\ (forall c, In c (reported_columns (issues (snd (run t1 t2 l1 l2)))) ->
                  In c (column_names t1) /\ In c (column_names t2))).
  { generalize (run_has_shape t1 t2 l1 l2). generalize (run t1 t2 l1 l2).
    intros out H. destruct H as [e Hg Hf | found lines ms Hshape];
      cbn [snd issues pre_state].
    - rewrite Hschema. split; [ constructor | intros c [] ].
    - rewrite reported_columns_app, Hschema. cbn [app].
      destruct Hshape as [Hg | Hg Hf | k e Hg Hf Hs | k s1 s2 r d Hg Hf Hs1 Hs2 Hloop];
        try (split; [ constructor | intros c [] ]).
      rewrite reported_columns_app.
      replace (reported_columns match r with
                                | Ok _ => []
                                | Raise e => [sorting_error e]
                                end) with (@nil string) by (now destruct r).
      rewrite app_nil_r.
      destruct (loop_reported _ _ _ _ _ (sorted_ascending _ (common_cols_NoDup t1 t2)) Hloop)
        as (A1 & A2).
      split; [ assumption | ].
      intros c Hc. rewrite Forall_forall in A2.
      apply common_cols_In. apply (proj1 (sorted_In c (common_cols t1 t2))). auto. }
  destruct H as [H1 H2]. split; [ assumption | ]. split; [ | assumption ].
  now apply ascending_NoDup.
Qed.

(** ** Narration and report *)









Lemma items_of_app a b : items_of (a ++ b) = items_of a ++ items_of b.
Proof. apply flat_map_app. Qed.

Lemma items_of_none lines :
  (forall l, In l lines -> match l with Item _ _ => False | _ => True end) ->
  items_of lines = [].
Proof.
  induction lines as [| l lines IH]; intro H; [ reflexivity | ].
  change (items_of (l :: lines))
    with (match l with Item idx issue => [(idx, issue)] | _ => [] end ++ items_of lines).
  rewrite IH by (intros; apply H; now right).
  specialize (H l (or_introl eq_refl)). now destruct l.
Qed.

Lemma items_of_items (l : list (nat * Issue)) :
  items_of (map (fun '(idx, issue) => Item idx issue) l) = l.
Proof.
  unfold items_of. induction l as [| [idx issue] l IH]; [ reflexivity | ].
  cbn [map flat_map app]. now rewrite IH.
Qed.

Lemma items_of_report found : items_of (report_lines found) = number_from 1 found.
Proof.
  unfold report_lines. destruct found as [| i found]; [ reflexivity | ].
  cbn [nonempty]. rewrite items_of_app. cbn [items_of flat_map app].
  rewrite items_of_app, items_of_items. cbn. now rewrite app_nil_r.
Qed.

Lemma comparison_shape_no_item t1 t2 found lines ms l :
  comparison_shape t1 t2 found lines ms -> In l lines ->
  match l with Item _ _ => False | _ => True end.
Proof.
  destruct 1 as [Hg | Hg Hf | k e Hg Hf Hs | k s1 s2 r d Hg Hf Hs1 Hs2 Hloop].
  - intros [].
  - intros [].
  - intros [<- | []]. exact I.
  - intros [<- | [<- | H]]; try exact I.
    destruct (loop_facts _ _ _ _ _ Hloop) as (_ & Hl & _).
    rewrite Forall_forall in Hl.
    destruct (Hl _ H) as [(c & -> & _) | [-> | ->]]; exact I.
Qed.

(** X5. When the call returns, what it printed ends with the report: the
    itemized lines are the issues, in order and numbered from 1, announced by
    their number; with no issue the tables are declared identical. *)
Theorem printed_report_lists_the_issues (t1 t2 : Table) (l1 l2 : string)
    (b : bool) (st : State) :
  run t1 t2 l1 l2 = (Ok b, st) ->
  items_of (stdout st) = number_from 1 (issues st)
  /\ (b = false -> In (Found (length (issues st))) (stdout st) /\ issues st <> [])
  /\ (b = true -> In Identical (stdout st) /\ issues st = []).
Proof.
  generalize (run_has_shape t1 t2 l1 l2). generalize (run t1 t2 l1 l2).
  intros out H Hout. destruct H as [e Hg Hf | found lines ms Hshape]; [ discriminate | ].
  pose proof (f_equal snd Hout) as Hst. apply (f_equal fst) in Hout.
  cbn [fst snd] in Hout, Hst. subst st. injection Hout as Hb. cbn [issues stdout].
  split; [ | split ].
  - rewrite !items_of_app, items_of_report.
    rewrite (items_of_none (summary_lines t1 t2 l1 l2))
      by (simpl; intuition; subst; exact I).
    rewrite (items_of_none lines)
      by (intros; eapply comparison_shape_no_item; eassumption).
    reflexivity.
  - intros ->. apply negb_false_iff in Hb.
    split; [ | now apply nonempty_true ].
    apply in_or_app. right. apply in_or_app. right.
    unfold report_lines. rewrite Hb. apply in_or_app. right. now left.
  - intros ->. apply negb_true_iff in Hb.
    split; [ | now apply nonempty_false ].
    apply in_or_app. right. apply in_or_app. right.
    unfold report_lines. rewrite Hb. apply in_or_app. right. now left.
Qed.

Lemma printed_report_lists_the_issues_witness :
  run one_two_three one_two_ninety_nine "A" "B"
  = (Ok false, snd (run one_two_three one_two_ninety_nine "A" "B"))
  /\ items_of (stdout (snd (run one_two_three one_two_ninety_nine "A" "B")))
     = number_from 1 (issues (snd (run one_two_three one_two_ninety_nine "A" "B"))).
Proof.
  assert (Hrun : run one_two_three one_two_ninety_nine "A" "B"
                 = (Ok false, snd (run one_two_three one_two_ninety_nine "A" "B")))
    by reflexivity.
  split; [ exact Hrun | ].
  exact (proj1 (printed_report_lists_the_issues
                  one_two_three one_two_ninety_nine "A" "B" false _ Hrun)).
Defined.

(** ** Tables without rows *)

Lemma difference_nil a b : (forall x, In x a -> In x b) -> difference a b = [].
Proof.
  unfold difference. induction a as [| x a IH]; intro H; [ reflexivity | ].
  cbn. assert (Hx : mem x b = true) by (apply mem_In, H; now left).
  rewrite Hx. cbn. apply IH. intros; apply H; now right.
Qed.

(** X6. Two tables without rows and with the same column names are found
    identical, whatever the types of their columns: nothing but the names is
    looked at. *)
Theorem empty_tables_with_the_same_names (t1 t2 : Table) (l1 l2 : string) :
  num_rows t1 = 0 -> num_rows t2 = 0 ->
  (forall c, In c (column_names t1) <-> In c (column_names t2)) ->
  exists st, run t1 t2 l1 l2 = (Ok true, st) /\ issues st = [].
Proof.
  intros Hr1 Hr2 Hnames.
  assert (Hguard : rows_and_common t1 t2 = false)
    by (apply rows_and_common_false; auto).
  assert (Hschema : schema_issues t1 t2 l1 l2 = []).
  { unfold schema_issues, cols_only_in_1, cols_only_in_2.
    rewrite Hr1, Hr2, !difference_nil; [ reflexivity | | ];
      intros x; rewrite !set_In; apply Hnames. }
  rewrite (run_skipped t1 t2 l1 l2 Hguard), final_report_run.
  cbn [issues pre_state]. rewrite Hschema. cbn. eauto.
Qed.

Lemma empty_tables_with_the_same_names_witness :
  exists st, run no_rows_int no_rows_str "A" "B" = (Ok true, st) /\ issues st = [].
Proof.
  apply (empty_tables_with_the_same_names no_rows_int no_rows_str "A" "B").
  - reflexivity.
  - reflexivity.
  - intro c. split; intro H; exact H.
Defined.

(** ** The row a column-value issue names *)

Lemma loop_issue_origin s1 s2 cols i : forall r d,
  loop s1 s2 cols initial = (r, d) -> In i (issues d) ->
  exists c col1 col2,
    In c cols /\ column s1 c = Ok col1 /\ column s2 c = Ok col2
    /\ columns_equal (dtype col1) col1 col2 = Ok false
    /\ i = column_values_issue c (dtype col1) col1 col2.
Proof.
  induction cols as [| x cols IH]; intros r d.
  - rewrite loop_nil. intros [= <- <-] [].
  - rewrite loop_cons.
    assert (Hhead : forall r1 d1, compare_column s1 s2 x initial = (r1, d1) ->
              In i (issues d1) ->
              exists c col1 col2,
                In c (x :: cols) /\ column s1 c = Ok col1 /\ column s2 c = Ok col2
                /\ columns_equal (dtype col1) col1 col2 = Ok false
                /\ i = column_values_issue c (dtype col1) col1 col2).
    { intros r1 d1. rewrite compare_column_cases.
      destruct (column s1 x) as [col1 | e] eqn:E1; [ | intros [= <- <-] [] ].
      destruct (column s2 x) as [col2 | e] eqn:E2; [ | intros [= <- <-] [] ].
      rewrite field_type_column, E1.
      destruct (columns_equal (dtype col1) col1 col2) as [[|] | e] eqn:E3;
        intros [= <- <-]; cbn; try tauto.
      intros [<- | []]. exists x, col1, col2. repeat split; auto; now left. }
    destruct (compare_column s1 s2 x initial) as [[[] | e] d1] eqn:E1.
    + destruct (loop s1 s2 cols initial) as [r2 d2] eqn:E2. cbn [fst snd].
      intros [= <- <-] Hin. cbn [extend issues] in Hin.
      apply in_app_or in Hin as [Hin | Hin].
      * eapply Hhead; eauto.
      * destruct (IH _ _ eq_refl Hin) as (c & col1 & col2 & Hc & Hrest).
        exists c, col1, col2. split; [ now right | assumption ].
    + intros [= <- <-] Hin. eapply Hhead; eauto.
Qed.

(** A column-value issue of a run comes from two sorted columns that were
    compared and found unequal. *)
Lemma run_issue_origin t1 t2 l1 l2 i :
  In i (issues (snd (run t1 t2 l1 l2))) -> type i = "column_values" ->
  exists k s1 s2 c col1 col2,
    first_scalar_common t1 t2 k
    /\ sort_by t1 k = Ok s1 /\ sort_by t2 k = Ok s2
    /\ column s1 c = Ok col1 /\ column s2 c = Ok col2
    /\ columns_equal (dtype col1) col1 col2 = Ok false
    /\ i = column_values_issue c (dtype col1) col1 col2.
Proof.
  generalize (run_has_shape t1 t2 l1 l2). generalize (run t1 t2 l1 l2).
  intros out H. destruct H as [e Hg Hf | found lines ms Hshape]; cbn [snd issues pre_state];
    intros Hin Hty.
  - exfalso. pose proof (schema_issues_types t1 t2 l1 l2) as Ht.
    rewrite Forall_forall in Ht. destruct (Ht _ Hin) as [E | E]; rewrite E in Hty;
      discriminate.
  - apply in_app_or in Hin as [Hin | Hin].
    { exfalso. pose proof (schema_issues_types t1 t2 l1 l2) as Ht.
      rewrite Forall_forall in Ht. destruct (Ht _ Hin) as [E | E]; rewrite E in Hty;
        discriminate. }
    destruct Hshape as [Hg | Hg Hf | k e Hg Hf Hs | k s1 s2 r d Hg Hf Hs1 Hs2 Hloop].
    + destruct Hin.
    + destruct Hin as [<- | []]. discriminate.
    + destruct Hin as [<- | []]. discriminate.
    + apply in_app_or in Hin as [Hin | Hin].
      * destruct (loop_issue_origin _ _ _ _ _ _ Hloop Hin)
          as (c & col1 & col2 & _ & Hrest).
        exists k, s1, s2, c, col1, col2.
        split; [ now apply find_sort_column_first | auto ].
      * destruct r; [ destruct Hin | ]. destruct Hin as [<- | []]. discriminate.
Qed.

Lemma first_diff_spec py1 : forall py2 start i,
  first_diff start py1 py2 = Ok i ->
  exists k,
    i = start + k
    /\ (exists x y, nth_error py1 k = Some x /\ nth_error py2 k = Some y
                    /\ py_eq x y = false)
    /\ forall j x y, j < k -> nth_error py1 j = Some x -> nth_error py2 j = Some y ->
                     py_eq x y = true.
Proof.
  induction py1 as [| x py1 IH]; intros py2 start i; cbn [first_diff]; [ discriminate | ].
  destruct py2 as [| y py2]; [ discriminate | ].
  destruct (py_eq x y) eqn:E; cbn [negb].
  - intro H. destruct (IH _ _ _ H) as (k & -> & (a & b & Ha & Hb & Hab) & Hbefore).
    exists (S k). split; [ lia | ]. split; [ exists a, b; auto | ].
    intros [| j] u v Hj; cbn [nth_error].
    + intros [= <-] [= <-]. assumption.
    + apply Hbefore. lia.
  - intros [= <-]. exists 0. split; [ lia | ].
    split; [ exists x, y; auto | ]. intros j u v Hj. lia.
Qed.

Lemma nth_error_as_py vs k x :
  nth_error (map as_py vs) k = Some x ->
  exists v, nth_error vs k = Some v /\ x = as_py v.
Proof.
  rewrite nth_error_map. destruct (nth_error vs k) as [v |]; [ | discriminate ].
  intros [= <-]. eauto.
Qed.

(** X7. On a nested column the row of a column-value issue is the first row,
    counted from 0 in the sorted tables, whose two cells differ as Python
    objects: the rows before it are equal. *)
Theorem nested_issue_names_the_first_difference
    (t1 t2 : Table) (l1 l2 c : string) (idx : Z) :
  In {| type := "column_values"; message := DifferencesAt c idx |}
     (issues (snd (run t1 t2 l1 l2))) ->
  exists k s1 s2 col1 col2,
    first_scalar_common t1 t2 k
    /\ sort_by t1 k = Ok s1 /\ sort_by t2 k = Ok s2
    /\ column s1 c = Ok col1 /\ column s2 c = Ok col2
    /\ (is_nested (dtype col1) = true ->
        exists i a b,
          idx = Z.of_nat i
          /\ nth_error (values col1) i = Some a /\ nth_error (values col2) i = Some b
          /\ py_eq (as_py a) (as_py b) = false
          /\ forall j a' b', j < i ->
               nth_error (values col1) j = Some a' ->
               nth_error (values col2) j = Some b' ->
               py_eq (as_py a') (as_py b') = true).
Proof.
  intro Hin.
  destruct (run_issue_origin _ _ _ _ _ Hin eq_refl)
    as (k & s1 & s2 & c' & col1 & col2 & Hk & Hs1 & Hs2 & Hc1 & Hc2 & Heq & Hi).
  unfold column_values_issue in Hi. injection Hi as Hmsg.
  destruct (first_difference (dtype col1) col1 col2) as [idx' |] eqn:Hfd;
    [ | discriminate ].
  injection Hmsg as <- <-.
  exists k, s1, s2, col1, col2. repeat (split; [ assumption | ]).
  intro Hnested. unfold first_difference in Hfd. rewrite Hnested in Hfd.
  unfold to_pylist in Hfd.
  destruct (forallb convertible (values col1)); [ | discriminate ].
  destruct (forallb convertible (values col2)); [ | discriminate ].
  cbn [rbind] in Hfd.
  destruct (first_diff 0 (map as_py (values col1)) (map as_py (values col2)))
    as [i |] eqn:Hdiff; [ | discriminate ].
  injection Hfd as <-.
  destruct (first_diff_spec _ _ _ _ Hdiff) as (n & -> & (x & y & Hx & Hy & Hxy) & Hbefore).
  apply nth_error_as_py in Hx as (a & Ha & ->).
  apply nth_error_as_py in Hy as (b & Hb & ->).
  exists n, a, b. repeat (split; [ assumption || reflexivity | ]).
  intros j a' b' Hj Ha' Hb'.
  apply (Hbefore j); [ assumption | | ]; rewrite nth_error_map.
  - now rewrite Ha'.
  - now rewrite Hb'.
Qed.

Lemma nested_issue_names_the_first_difference_witness :
  exists k s1 s2 col1 col2,
    first_scalar_common lists_one_null lists_one_two k
    /\ sort_by lists_one_null k = Ok s1 /\ sort_by lists_one_two k = Ok s2
    /\ column s1 "l" = Ok col1 /\ column s2 "l" = Ok col2
    /\ (is_nested (dtype col1) = true ->
        exists i a b,
          1%Z = Z.of_nat i
          /\ nth_error (values col1) i = Some a /\ nth_error (values col2) i = Some b
          /\ py_eq (as_py a) (as_py b) = false
          /\ forall j a' b', j < i ->
               nth_error (values col1) j = Some a' ->
               nth_error (values col2) j = Some b' ->
               py_eq (as_py a') (as_py b') = true).
Proof.
  apply (nested_issue_names_the_first_difference
           lists_one_null lists_one_two "A" "B" "l" 1).
  vm_compute. left. reflexivity.
Defined.

Lemma implicit_cast_typed ty vs :
  forallb (scalar_cell ty) vs = true -> mapM (implicit_cast ty) vs = Ok vs.
Proof.
  induction vs as [| v vs IH]; cbn [forallb mapM]; [ reflexivity | ].
  intro H. apply andb_true_iff in H as [Hv Hvs].
  rewrite (IH Hvs).
  assert (Hcast : implicit_cast ty v = Ok v)
    by (destruct ty, v; try reflexivity; discriminate).
  now rewrite Hcast.
Qed.

Lemma common_type_same ty : is_nested ty = false -> common_type ty ty = Some ty.
Proof. destruct ty; try discriminate; reflexivity. Qed.

Lemma index_from_spec mask : forall start,
  (index_from start mask = (-1)%Z
   /\ forall j, nth_error mask j <> Some (Some true))
  \/ exists k,
       index_from start mask = (start + Z.of_nat k)%Z
       /\ nth_error mask k = Some (Some true)
       /\ forall j, j < k -> nth_error mask j <> Some (Some true).
Proof.
  induction mask as [| m mask IH]; intro start; cbn [index_from].
  - left. split; [ reflexivity | ]. intros [| j]; discriminate.
  - assert (Hnext : m <> Some true ->
      (index_from (start + 1) mask = (-1)%Z
       /\ forall j, nth_error (m :: mask) j <> Some (Some true))
      \/ exists k,
           index_from (start + 1) mask = (start + Z.of_nat k)%Z
           /\ nth_error (m :: mask) k = Some (Some true)
           /\ forall j, j < k -> nth_error (m :: mask) j <> Some (Some true)).
    { intro Hm. destruct (IH (start + 1)%Z) as [(E & Hnone) | (k & E & Hk & Hbefore)].
      - left. split; [ assumption | ]. intros [| j]; cbn; [ congruence | apply Hnone ].
      - right. exists (S k). split; [ rewrite E; lia | ]. split; [ assumption | ].
        intros [| j] Hj; cbn; [ congruence | apply Hbefore; lia ]. }
    destruct m as [[|] |]; try (apply Hnext; congruence).
    right. exists 0. split; [ lia | ]. split; [ reflexivity | ]. intros j Hj. lia.
Qed.

Lemma nth_error_map2 {A B C} (f : A -> B -> C) l : forall m j,
  nth_error (map2 f l m) j
  = match nth_error l j, nth_error m j with
    | Some a, Some b => Some (f a b)
    | _, _ => None
    end.
Proof.
  induction l as [| x l IH]; intros m j; cbn [map2].
  - destruct j; reflexivity.
  - destruct m as [| y m].
    + destruct j; cbn; [ reflexivity | ]. now destruct (nth_error l j).
    + destruct j; cbn; [ reflexivity | apply IH ].
Qed.

Lemma cell_not_equal_true a b :
  cell_not_equal a b = Some true
  <-> a <> Null /\ b <> Null /\ value_equals a b = false.
Proof.
  split.
  - intro H.
    assert (Ha : a <> Null) by (intros ->; discriminate).
    assert (Hb : b <> Null) by (intros ->; destruct a; discriminate).
    split; [ assumption | ]. split; [ assumption | ].
    destruct (value_equals a b) eqn:E; [ exfalso | reflexivity ].
    destruct a; try contradiction; destruct b; try contradiction;
      cbn [cell_not_equal] in H; rewrite E in H; discriminate.
  - intros (Ha & Hb & H).
    destruct a; try contradiction; destruct b; try contradiction;
      cbn [cell_not_equal]; now rewrite H.
Qed.

Lemma sorted_typed_scalars t k s c col :
  typed_scalars t -> sort_by t k = Ok s -> column s c = Ok col ->
  is_nested (dtype col) = false ->
  forallb (scalar_cell (dtype col)) (values col) = true.
Proof.
  intros Ht Hs Hc Hn.
  destruct (sort_by_column _ _ _ _ _ Hs Hc) as (col0 & Hcol0 & Hd & Hv).
  apply column_Ok in Hcol0 as [Hin _].
  unfold typed_scalars in Ht. rewrite Forall_forall in Ht.
  rewrite Hd in *. eapply forallb_sub; [ exact Hv | auto ].
Qed.

(** X8. On a column of one scalar type in both tables, with cells of that
    type, the row of a column-value issue is the first row whose two cells
    are both valid and differ; it is -1 when there is no such row, that is
    when the columns differ in null-ness only. *)
Theorem scalar_issue_names_the_first_valid_difference
    (t1 t2 : Table) (l1 l2 c : string) (idx : Z) :
  typed_scalars t1 -> typed_scalars t2 ->
  In {| type := "column_values"; message := DifferencesAt c idx |}
     (issues (snd (run t1 t2 l1 l2))) ->
  exists k s1 s2 col1 col2,
    first_scalar_common t1 t2 k
    /\ sort_by t1 k = Ok s1 /\ sort_by t2 k = Ok s2
    /\ column s1 c = Ok col1 /\ column s2 c = Ok col2
    /\ (is_nested (dtype col1) = false -> dtype col2 = dtype col1 ->
        length (values col1) = length (values col2)
        /\ ((idx = (-1)%Z
             /\ forall j a b,
                  nth_error (values col1) j = Some a ->
                  nth_error (values col2) j = Some b ->
                  a = Null \/ b = Null \/ value_equals a b = true)
            \/ exists i a b,
                 idx = Z.of_nat i
                 /\ nth_error (values col1) i = Some a
                 /\ nth_error (values col2) i = Some b
                 /\ a <> Null /\ b <> Null /\ value_equals a b = false
                 /\ forall j a' b', j < i ->
                      nth_error (values col1) j = Some a' ->
                      nth_error (values col2) j = Some b' ->
                      a' = Null \/ b' = Null \/ value_equals a' b' = true)).
Proof.
  intros Ht1 Ht2 Hin.
  destruct (run_issue_origin _ _ _ _ _ Hin eq_refl)
    as (k & s1 & s2 & c' & col1 & col2 & Hk & Hs1 & Hs2 & Hc1 & Hc2 & Heq & Hi).
  unfold column_values_issue in Hi. injection Hi as Hmsg.
  destruct (first_difference (dtype col1) col1 col2) as [idx' |] eqn:Hfd;
    [ | discriminate ].
  injection Hmsg as <- <-.
  exists k, s1, s2, col1, col2. repeat (split; [ assumption | ]).
  intros Hscalar Hsame.
  pose proof (sorted_typed_scalars _ _ _ _ _ Ht1 Hs1 Hc1 Hscalar) as T1.
  assert (T2 : forallb (scalar_cell (dtype col1)) (values col2) = true).
  { rewrite <- Hsame. apply (sorted_typed_scalars _ _ _ _ _ Ht2 Hs2 Hc2).
    now rewrite Hsame. }
  unfold first_difference in Hfd. rewrite Hscalar in Hfd.
  unfold pc_not_equal in Hfd.
  rewrite Hsame, (common_type_same _ Hscalar) in Hfd.
  destruct (length (values col1) =? length (values col2)) eqn:Hlen;
    cbn [negb] in Hfd; [ | discriminate ].
  apply Nat.eqb_eq in Hlen.
  rewrite (implicit_cast_typed _ _ T1), (implicit_cast_typed _ _ T2) in Hfd.
  cbn [rbind] in Hfd. injection Hfd as <-.
  split; [ assumption | ].
  assert (Hcell : forall j a b,
            nth_error (values col1) j = Some a -> nth_error (values col2) j = Some b ->
            nth_error (map2 cell_not_equal (values col1) (values col2)) j
              <> Some (Some true) ->
            a = Null \/ b = Null \/ value_equals a b = true).
  { intros j a b Ha Hb Hm. rewrite nth_error_map2, Ha, Hb in Hm.
    destruct a; auto; destruct b; auto; right; right;
      (destruct (value_equals _ _) eqn:E; [ reflexivity | ]);
      exfalso; apply Hm; cbn [cell_not_equal]; now rewrite E. }
  unfold pc_index.
  destruct (index_from_spec (map2 cell_not_equal (values col1) (values col2)) 0)
    as [(E & Hnone) | (n & E & Hn & Hbefore)].
  - left. split; [ assumption | ]. intros j a b Ha Hb. eapply Hcell; eauto.
  - right. rewrite nth_error_map2 in Hn.
    destruct (nth_error (values col1) n) as [a |] eqn:Ha; [ | discriminate ].
    destruct (nth_error (values col2) n) as [b |] eqn:Hb; [ | discriminate ].
    injection Hn as Hn. apply cell_not_equal_true in Hn as (Na & Nb & Hne).
    exists n, a, b. rewrite E. repeat (split; [ assumption || reflexivity | ]).
    intros j a' b' Hj Ha' Hb'. eapply Hcell; eauto.
Qed.

Lemma scalar_issue_names_the_first_valid_difference_witness :
  exists k s1 s2 col1 col2,
    first_scalar_common one_two_three one_two_ninety_nine k
    /\ sort_by one_two_three k = Ok s1 /\ sort_by one_two_ninety_nine k = Ok s2
    /\ column s1 "a" = Ok col1 /\ column s2 "a" = Ok col2
    /\ (is_nested (dtype col1) = false -> dtype col2 = dtype col1 ->
        length (values col1) = length (values col2)
        /\ ((2%Z = (-1)%Z
             /\ forall j a b,
                  nth_error (values col1) j = Some a ->
                  nth_error (values col2) j = Some b ->
                  a = Null \/ b = Null \/ value_equals a b = true)
            \/ exists i a b,
                 2%Z = Z.of_nat i
                 /\ nth_error (values col1) i = Some a
                 /\ nth_error (values col2) i = Some b
                 /\ a <> Null /\ b <> Null /\ value_equals a b = false
                 /\ forall j a' b', j < i ->
                      nth_error (values col1) j = Some a' ->
                      nth_error (values col2) j = Some b' ->
                      a' = Null \/ b' = Null \/ value_equals a' b' = true)).
Proof.
  apply (scalar_issue_names_the_first_valid_difference
           one_two_three one_two_ninety_nine "A" "B" "a" 2).
  - constructor; [ intros _; reflexivity | constructor ].
  - constructor; [ intros _; reflexivity | constructor ].
  - vm_compute. left. reflexivity.
Defined.

(** ** Columns of different types *)

Lemma DataType_eqb_differ t u :
  is_nested t = false -> u <> t -> DataType_eqb t u = false.
Proof.
  intros Hn Hd. destruct (DataType_eqb t u) eqn:E; [ | reflexivity ].
  exfalso. apply Hd. now apply DataType_eqb_scalar.
Qed.

(** X9. With rows on both sides, a common column that is not nested in the
    first table and has another type in the second is reported by a
    column-value issue, whatever its cells, unless a "sorting" issue is
    reported: a difference of types shows as a difference of values.  No
    sorting issue stands in the way when the cells convert to Python objects
    and the sort key is not nested in the second table either. *)
Theorem scalar_type_difference_is_reported
    (t1 t2 : Table) (l1 l2 c : string) (col1 col2 : Column) :
  well_formed t1 -> well_formed t2 ->
  0 < num_rows t1 -> 0 < num_rows t2 ->
  column t1 c = Ok col1 -> column t2 c = Ok col2 ->
  is_nested (dtype col1) = false -> dtype col2 <> dtype col1 ->
  (count_type "sorting" (issues (snd (run t1 t2 l1 l2))) = 0 ->
   column_reported c (issues (snd (run t1 t2 l1 l2))))
  /\ (cells_convertible t1 -> cells_convertible t2 ->
      (forall k, first_scalar_common t1 t2 k -> scalar_in t2 k) ->
      column_reported c (issues (snd (run t1 t2 l1 l2)))).
Proof.
  intros Hwf1 Hwf2 Hr1 Hr2 Hc1 Hc2 Hscalar Hdiff.
  pose proof (column_Ok _ _ _ Hc1) as [Hin1 Hname1].
  pose proof (column_Ok _ _ _ Hc2) as [Hin2 Hname2].
  assert (Hn1 : In c (column_names t1)) by (rewrite <- Hname1; now apply in_map).
  assert (Hn2 : In c (column_names t2)) by (rewrite <- Hname2; now apply in_map).
  assert (Hc : In c (common_cols t1 t2)) by (apply common_cols_In; auto).
  pose proof Hwf1 as [Hnd1 _]. pose proof Hwf2 as [Hnd2 _].
  assert (Hloop : forall k s1 s2 d,
            sort_by t1 k = Ok s1 -> sort_by t2 k = Ok s2 ->
            loop s1 s2 (sorted (common_cols t1 t2)) initial = (Ok tt, d) ->
            column_reported c (issues d)).
  { intros k s1 s2 d Hs1 Hs2 Hloop.
    destruct (sorted_column t1 k s1 c Hnd1 Hs1 Hn1) as (o1 & c1 & Ho1 & Ec1 & Hd1 & _).
    destruct (sorted_column t2 k s2 c Hnd2 Hs2 Hn2) as (o2 & c2 & Ho2 & Ec2 & Hd2 & _).
    assert (o1 = col1) by congruence. assert (o2 = col2) by congruence. subst o1 o2.
    destruct (loop_reports_mismatch s1 s2 (sorted (common_cols t1 t2)) c _ _ Hloop)
      as [H | (e & He)]; [ | | exact H | discriminate ].
    - now apply sorted_In.
    - exists c1, c2. repeat split; auto.
      unfold columns_equal, equals. rewrite Hd1, Hscalar, Hd2.
      now rewrite (DataType_eqb_differ _ _ Hscalar Hdiff). }
  assert (Hmore : forall a b, column_reported c b -> column_reported c (a ++ b)).
  { intros a b (i & Hi & Hrest). exists i. split; [ | assumption ].
    apply in_or_app. now right. }
  split.
  - destruct (run_returns t1 t2 l1 l2 Hnd1) as (found & lines & ms & Hshape & Hrun).
    rewrite Hrun. cbn [snd issues]. intro Hcount.
    rewrite count_type_app, schema_issues_count in Hcount by discriminate.
    apply Hmore.
    destruct Hshape as [Hg | Hg Hf | k e Hg Hf Hs | k s1 s2 r d Hg Hf Hs1 Hs2 Hl].
    + exfalso. apply rows_and_common_false in Hg as [Hg | [Hg | Hg]]; try lia.
      rewrite Hg in Hc. contradiction.
    + discriminate.
    + discriminate.
    + rewrite count_type_app in Hcount.
      destruct r as [[] | e]; [ | cbn in Hcount; lia ].
      rewrite app_nil_r. eapply Hloop; eassumption.
  - intros Hcv1 Hcv2 Hkey.
    destruct (run_compares t1 t2 l1 l2 Hwf1 Hwf2 Hcv1 Hcv2 Hr1 Hr2)
      as (k & s1 & s2 & d & _ & Hs1 & Hs2 & Hl & Hrun).
    { exists c. repeat split; auto. exists (dtype col1).
      rewrite field_type_column, Hc1. auto. }
    { intros k Hk. apply scalar_in_sortable. auto. }
    rewrite Hrun. cbn [snd issues]. apply Hmore. eapply Hloop; eassumption.
Qed.

Lemma scalar_type_difference_is_reported_witness :
  column_reported "a" (issues (snd (run one_as_int one_as_string "A" "B"))).
Proof.
  apply (scalar_type_difference_is_reported one_as_int one_as_string "A" "B" "a"
           {| name := "a"; dtype := int64; values := [Int 1] |}
           {| name := "a"; dtype := string_; values := [Str "1"] |}).
  - apply well_formedb_ok; reflexivity.
  - apply well_formedb_ok; reflexivity.
  - simpl; lia.
  - simpl; lia.
  - reflexivity.
  - reflexivity.
  - reflexivity.
  - discriminate.
  - repeat constructor.
  - repeat constructor.
  - intros k Hk.
    assert (k = "a").
    { apply (first_scalar_common_unique one_as_int one_as_string); [ exact Hk | ].
      apply find_sort_column_first. reflexivity. }
    subst k. exists string_. split; reflexivity.
Defined.

(** An int64 column that is a list column in the second table, and the sort
    key: the sort of the second table raises, and the difference of types is
    not reported as a difference of values. *)
Lemma list_typed_key_is_a_sorting_issue :
  map type (issues (snd (run one_as_int one_as_list "A" "B"))) = ["sorting"].
Proof. reflexivity. Qed.

(** * Loading the tables and the command line *)

(** X10. [load_table] returns a table in two cases only: from the parquet
    reader, for a regular file whose suffix is .parquet, and from the
    datasets loader, for a directory.  A directory is never handed to the
    parquet reader, whatever its name, nor a file to the datasets loader. *)
Theorem load_table_returns_a_table_from (w : World) (file_path : string) (t : Table) :
  load_table w file_path = Loaded t
  <-> (entry w file_path = RegularFile
       /\ suffix w file_path = ".parquet"
       /\ read_table w file_path = Ok t)
      \/ (entry w file_path = Directory /\ load_from_disk w file_path = Ok t).
Proof.
  unfold load_table.
  destruct (entry w file_path) eqn:E; cbn [exists_ is_file is_dir negb andb].
  - split; [ discriminate | intros [(H & _) | (H & _)]; discriminate ].
  - destruct (String.eqb_spec (suffix w file_path) ".parquet") as [S | S].
    + destruct (read_table w file_path) as [t' | e]; split.
      * intros [= <-]. left. auto.
      * intros [(_ & _ & [= <-]) | (H & _)]; [ reflexivity | discriminate ].
      * discriminate.
      * intros [(_ & _ & H) | (H & _)]; discriminate.
    + split; [ discriminate | intros [(_ & H & _) | (H & _)]; [ contradiction | discriminate ] ].
  - destruct (load_from_disk w file_path) as [t' | e]; split.
    + intros [= <-]. right. auto.
    + intros [(H & _) | (_ & [= <-])]; [ discriminate | reflexivity ].
    + discriminate.
    + intros [(H & _) | (_ & H)]; discriminate.
  - split; [ discriminate | intros [(H & _) | (H & _)]; discriminate ].
Qed.

(** X11. What [load_table] raises tells what went wrong: FileNotFoundError
    for a path that leads nowhere; the "unsupported" ValueError for what is
    neither a directory nor a regular file with suffix .parquet; the "could
    not load" ValueError, around its cause, when the datasets loader raises
    on a directory; and the parquet reader's own exception, as it is, when
    the reader raises. *)
Theorem load_table_raises (w : World) (file_path : string) (e : load_exn) :
  load_table w file_path = NotLoaded e ->
  match e with
  | FileNotFoundError p => p = file_path /\ entry w file_path = Absent
  | UnsupportedFormat p =>
      p = file_path
      /\ (entry w file_path = Special
          \/ (entry w file_path = RegularFile /\ suffix w file_path <> ".parquet"))
  | CouldNotLoad p cause =>
      p = file_path /\ entry w file_path = Directory
      /\ load_from_disk w file_path = Raise cause
  | FromReader cause =>
      entry w file_path = RegularFile /\ suffix w file_path = ".parquet"
      /\ read_table w file_path = Raise cause
  end.
Proof.
  unfold load_table.
  destruct (entry w file_path) eqn:E; cbn [exists_ is_file is_dir negb andb].
  - intros [= <-]. auto.
  - destruct (String.eqb_spec (suffix w file_path) ".parquet") as [S | S].
    + destruct (read_table w file_path) as [t' | c]; [ discriminate | ].
      intros [= <-]. auto.
    + intros [= <-]. auto.
  - destruct (load_from_disk w file_path) as [t' | c]; [ discriminate | ].
    intros [= <-]. auto.
  - intros [= <-]. auto.
Qed.

Lemma load_table_raises_witness :
  load_table example_world "empty_dir"
  = NotLoaded (CouldNotLoad "empty_dir" (ValueError "not a dataset"))
  /\ entry example_world "empty_dir" = Directory
  /\ load_from_disk example_world "empty_dir" = Raise (ValueError "not a dataset").
Proof.
  assert (H : load_table example_world "empty_dir"
              = NotLoaded (CouldNotLoad "empty_dir" (ValueError "not a dataset")))
    by reflexivity.
  split; [ exact H | ].
  exact (proj2 (load_table_raises example_world "empty_dir" _ H)).
Defined.

Lemma compared_lines_app a b : compared_lines (a ++ b) = compared_lines a ++ compared_lines b.
Proof. apply flat_map_app. Qed.

Lemma compared_lines_map lines : compared_lines (map Compared lines) = lines.
Proof.
  unfold compared_lines. induction lines as [| l lines IH]; [ reflexivity | ].
  cbn [map flat_map app]. now rewrite IH.
Qed.

(** X12. [main] compares only what it could load.  When a path does not load,
    the exception of the first one that fails leaves [main], nothing of a
    comparison is printed, and after a failure of the first path the second
    is not even announced. *)
Theorem main_stops_at_the_first_failed_load (w : World) (file1 file2 : string) :
  (forall e, load_table w file1 = NotLoaded e ->
             main w file1 file2 = (LoadRaised e, [LoadingFirst file1]))
  /\ (forall t1 e, load_table w file1 = Loaded t1 -> load_table w file2 = NotLoaded e ->
                   main w file1 file2
                   = (LoadRaised e, [LoadingFirst file1; LoadingSecond file2]))
  /\ (compared_lines (snd (main w file1 file2)) <> [] ->
      exists t1 t2, load_table w file1 = Loaded t1 /\ load_table w file2 = Loaded t2
                    /\ compared_lines (snd (main w file1 file2))
                       = stdout (snd (run t1 t2 file1 file2))).
Proof.
  unfold main. split; [ | split ].
  - intros e ->. reflexivity.
  - intros t1 e -> ->. reflexivity.
  - destruct (load_table w file1) as [t1 | e1]; [ | intro H; now contradiction H ].
    destruct (load_table w file2) as [t2 | e2]; [ | intro H; now contradiction H ].
    intros _. exists t1, t2. split; [ reflexivity | ]. split; [ reflexivity | ].
    destruct (run t1 t2 file1 file2) as [r st]. cbn [snd].
    rewrite compared_lines_app, compared_lines_map. reflexivity.
Qed.

Lemma main_stops_at_the_first_failed_load_witness :
  main example_world "missing" "dataset"
  = (LoadRaised (FileNotFoundError "missing"), [LoadingFirst "missing"]).
Proof.
  exact (proj1 (main_stops_at_the_first_failed_load example_world "missing" "dataset")
               (FileNotFoundError "missing") eq_refl).
Defined.

(** X13. When both paths load and the first table is well-formed, [main]
    returns, and returns the same whether the tables are found identical or
    not: the verdict of [compare_tables] is dropped, and what tells the two
    cases apart is the printed report, made with the paths as labels. *)
Theorem main_returns_whatever_the_verdict
    (w : World) (file1 file2 : string) (t1 t2 : Table) :
  load_table w file1 = Loaded t1 -> load_table w file2 = Loaded t2 ->
  well_formed t1 ->
  exists b st,
    run t1 t2 file1 file2 = (Ok b, st)
    /\ main w file1 file2
       = (Returned,
          LoadingFirst file1 :: LoadingSecond file2 :: map Compared (stdout st))
    /\ items_of (stdout st) = number_from 1 (issues st)
    /\ (b = true <-> In (Compared Identical) (snd (main w file1 file2))).
Proof.
  intros H1 H2 [Hn _].
  destruct (run_returns t1 t2 file1 file2 Hn) as (found & lines & ms & Hshape & Hrun).
  unfold main. rewrite H1, H2, Hrun. cbn [snd stdout issues].
  eexists; eexists. split; [ reflexivity | ]. split; [ reflexivity | ].
  cbn [snd stdout issues].
  assert (Hitems : forall l, In l lines -> match l with Item _ _ => False | _ => True end)
    by (intros; eapply comparison_shape_no_item; eassumption).
  split.
  - rewrite !items_of_app, items_of_report.
    rewrite (items_of_none (summary_lines t1 t2 file1 file2))
      by (simpl; intuition; subst; exact I).
    now rewrite (items_of_none lines).
  - split.
    + intro Hb. apply negb_true_iff in Hb.
      right; right. apply in_map. apply in_or_app. right. apply in_or_app. right.
      unfold report_lines. rewrite Hb. apply in_or_app. right. now left.
    + intros [H | [H | H]]; try discriminate.
      apply in_map_iff in H as (l & [= ->] & H).
      apply in_app_or in H as [H | H].
      { simpl in H. intuition discriminate. }
      apply in_app_or in H as [H | H].
      { exfalso. clear - Hshape H.
        destruct Hshape as [Hg | Hg Hf | k e Hg Hf Hs | k s1 s2 r d Hg Hf Hs1 Hs2 Hloop].
        - destruct H.
        - destruct H.
        - destruct H as [H | []]. discriminate.
        - destruct H as [H | [H | H]]; try discriminate.
          destruct (loop_facts _ _ _ _ _ Hloop) as (_ & Hl & _).
          rewrite Forall_forall in Hl.
          destruct (Hl _ H) as [(c & E & _) | [E | E]]; discriminate. }
      unfold report_lines in H.
      destruct (nonempty (schema_issues t1 t2 file1 file2 ++ found));
        [ exfalso | reflexivity ].
      apply in_app_or in H as [H | H]; [ simpl in H; intuition discriminate | ].
      destruct H as [H | H]; [ discriminate | ].
      apply in_app_or in H as [H | [H | []]]; [ | discriminate ].
      apply in_map_iff in H as ([idx issue] & E & _). discriminate.
Qed.

Lemma main_returns_whatever_the_verdict_witness :
  exists b st,
    run one_two_three one_two_ninety_nine "a.parquet" "dataset" = (Ok b, st)
    /\ main example_world "a.parquet" "dataset"
       = (Returned,
          LoadingFirst "a.parquet" :: LoadingSecond "dataset"
            :: map Compared (stdout st))
    /\ items_of (stdout st) = number_from 1 (issues st)
    /\ (b = true
        <-> In (Compared Identical) (snd (main example_world "a.parquet" "dataset"))).
Proof.
  apply (main_returns_whatever_the_verdict example_world "a.parquet" "dataset"
           one_two_three one_two_ninety_nine).
  - reflexivity.
  - reflexivity.
  - apply well_formedb_ok; reflexivity.
Defined.

(** * Rows in another order *)

(** ** The order of the sort keys *)

Lemma SFltb_ord f g :
  SFltb f g = true
  <-> f <> S754_nan /\ g <> S754_nan /\ lex_lt (float_ord f) (float_ord g).
Proof.
  unfold SFltb, SFcompare, lex_lt.
  destruct f as [s | s | | s m e], g as [s' | s' | | s' m' e'];
    try destruct s; try destruct s'; cbn;
    try (split; [ discriminate | intros (H1 & H2 & H3); try contradiction; lia ]);
    try (split; [ intros _; repeat split; try discriminate; lia | reflexivity ]).
  - change (Pos.compare_cont Eq m m') with (Pos.compare m m').
    destruct (Z.compare_spec e e'), (Pos.compare_spec m m'); cbn;
      (split; [ try discriminate; intros _; repeat split; try discriminate; lia
              | try reflexivity; intros (_ & _ & Hlex); lia ]).
  - change (Pos.compare_cont Eq m m') with (Pos.compare m m').
    destruct (Z.compare_spec e e'), (Pos.compare_spec m m'); cbn;
      (split; [ try discriminate; intros _; repeat split; try discriminate; lia
              | try reflexivity; intros (_ & _ & Hlex); lia ]).
Qed.

Lemma SFltb_trans f g h : SFltb f g = true -> SFltb g h = true -> SFltb f h = true.
Proof.
  rewrite !SFltb_ord. unfold lex_lt.
  intros (Hf & Hg & H1) (_ & Hh & H2). repeat split; auto. lia.
Qed.

Lemma SFltb_irrefl f : SFltb f f = false.
Proof.
  destruct (SFltb f f) eqn:E; [ | reflexivity ].
  apply SFltb_ord in E as (_ & _ & H). unfold lex_lt in H. lia.
Qed.

Lemma value_lt_trans a b c :
  value_lt a b = true -> value_lt b c = true -> value_lt a c = true.
Proof.
  destruct a, b; cbn [value_lt]; try discriminate; destruct c; cbn [value_lt];
    try discriminate.
  - rewrite !Z.ltb_lt. lia.
  - apply SFltb_trans.
  - apply name_lt_trans.
  - destruct b, b0, b1; cbn; congruence.
Qed.

Lemma value_lt_irrefl a : value_lt a a = false.
Proof.
  destruct a; cbn [value_lt]; try reflexivity.
  - apply Z.ltb_irrefl.
  - apply SFltb_irrefl.
  - destruct (String.ltb s s) eqn:E; [ | reflexivity ].
    exfalso. exact (name_lt_irrefl s E).
  - now destruct b.
Qed.

Lemma key_lt_trans a b c : key_lt a b = true -> key_lt b c = true -> key_lt a c = true.
Proof.
  unfold key_lt. rewrite !orb_true_iff, !andb_true_iff, !Nat.ltb_lt, !Nat.eqb_eq.
  intros [H1 | [H1 V1]] [H2 | [H2 V2]]; try (left; lia).
  right. split; [ lia | ]. eapply value_lt_trans; eassumption.
Qed.

Lemma key_lt_irrefl a : key_lt a a = false.
Proof.
  unfold key_lt. now rewrite Nat.ltb_irrefl, value_lt_irrefl, andb_false_r.
Qed.

(** ** The sorted indices *)

Lemma insert_key_perm x l : Permutation (insert_key x l) (x :: l).
Proof.
  induction l as [| y l IH]; cbn [insert_key]; [ reflexivity | ].
  destruct (key_lt (snd y) (snd x)); [ | reflexivity ].
  rewrite IH. apply perm_swap.
Qed.

Lemma sorted_pairs_perm l : Permutation (fold_right insert_key [] l) l.
Proof.
  induction l as [| x l IH]; cbn [fold_right]; [ reflexivity | ].
  rewrite insert_key_perm. now constructor.
Qed.

Lemma insert_key_sorted x l :
  StronglySorted pair_lt l ->
  (forall y, In y l -> apart (snd x) (snd y)) ->
  StronglySorted pair_lt (insert_key x l).
Proof.
  induction 1 as [| y l Hl IH Hy]; intro Hx; cbn [insert_key].
  - repeat constructor.
  - destruct (key_lt (snd y) (snd x)) eqn:E.
    + constructor.
      * apply IH. intros z Hz. apply Hx. now right.
      * apply Forall_forall. intros z Hz. apply insert_key_In in Hz as [-> | Hz].
        -- exact E.
        -- rewrite Forall_forall in Hy. auto.
    + assert (Hxy : pair_lt x y).
      { destruct (Hx y (or_introl eq_refl)) as [H | H]; [ exact H | congruence ]. }
      constructor; [ now constructor | ].
      constructor; [ assumption | ].
      rewrite Forall_forall in *. intros z Hz.
      unfold pair_lt in *. eapply key_lt_trans; eauto.
Qed.

Lemma sorted_pairs_sorted l :
  ForallOrdPairs (fun p q => apart (snd p) (snd q)) l ->
  StronglySorted pair_lt (fold_right insert_key [] l).
Proof.
  induction 1 as [| x l Hx Hl IH]; cbn [fold_right]; [ constructor | ].
  apply insert_key_sorted; [ assumption | ].
  intros y Hy. rewrite Forall_forall in Hx. apply Hx.
  now apply (Permutation_in _ (sorted_pairs_perm l)).
Qed.

Lemma combine_apart (idxs : list nat) keys :
  tie_free keys ->
  ForallOrdPairs (fun p q => apart (snd p) (snd q)) (combine idxs keys).
Proof.
  intro H. revert idxs. induction H as [| k keys Hk Hkeys IH]; intros [| i idxs];
    cbn [combine]; try constructor.
  - apply Forall_forall. intros [j b] Hin. cbn [snd].
    apply in_combine_r in Hin. rewrite Forall_forall in Hk. auto.
  - apply IH.
Qed.

Lemma map_fst_combine {A B} (l : list A) (m : list B) :
  length l = length m -> map fst (combine l m) = l.
Proof.
  revert m. induction l as [| x l IH]; destruct m as [| y m]; cbn; try discriminate;
    [ reflexivity | ].
  intros [= H]. now rewrite IH.
Qed.

Lemma sort_indices_perm keys : Permutation (sort_indices keys) (seq 0 (length keys)).
Proof.
  unfold sort_indices, enumerate.
  rewrite (Permutation_map fst (sorted_pairs_perm _)).
  rewrite map_fst_combine; [ reflexivity | apply length_seq ].
Qed.

Lemma enumerate_nth {A} (l : list A) (d : A) i x :
  In (i, x) (enumerate l) -> nth i l d = x /\ i < length l.
Proof.
  unfold enumerate.
  assert (H : forall start, In (i, x) (combine (seq start (length l)) l) ->
                            start <= i /\ nth (i - start) l d = x /\ i < start + length l).
  { induction l as [| y l IH]; intros start; cbn [length seq combine]; [ intros [] | ].
    intros [[= <- <-] | Hin].
    - rewrite Nat.sub_diag. cbn. repeat split; lia.
    - destruct (IH _ Hin) as (H1 & H2 & H3).
      replace (i - start) with (S (i - S start)) by lia. cbn. repeat split; auto; lia. }
  intro Hin. destruct (H 0 Hin) as (_ & H2 & H3).
  rewrite Nat.sub_0_r in H2. auto.
Qed.

Lemma StronglySorted_map_In {A B} (R : A -> A -> Prop) (R' : B -> B -> Prop)
    (f : A -> B) l :
  (forall x y, In x l -> In y l -> R x y -> R' (f x) (f y)) ->
  StronglySorted R l -> StronglySorted R' (map f l).
Proof.
  intros Hf H. induction H as [| x l Hl IH Hx]; cbn [map]; constructor.
  - apply IH. intros a b Ha Hb. apply Hf; now right.
  - rewrite Forall_forall in *. intros y Hy.
    apply in_map_iff in Hy as (z & <- & Hz).
    apply Hf; [ now left | now right | auto ].
Qed.

Lemma sort_indices_sorted keys :
  tie_free keys -> StronglySorted (index_lt keys) (sort_indices keys).
Proof.
  intro H. unfold sort_indices.
  apply StronglySorted_map_In with (R := pair_lt).
  - intros [i a] [j b] Hi Hj Hlt.
    apply (Permutation_in _ (sorted_pairs_perm _)) in Hi, Hj.
    apply (enumerate_nth _ Null) in Hi as [<- _].
    apply (enumerate_nth _ Null) in Hj as [<- _].
    exact Hlt.
  - apply sorted_pairs_sorted. now apply combine_apart.
Qed.

Lemma sorted_perm_unique {A} (R : A -> A -> Prop) :
  (forall x, ~ R x x) -> (forall x y z, R x y -> R y z -> R x z) ->
  forall l l', StronglySorted R l -> StronglySorted R l' -> Permutation l l' -> l = l'.
Proof.
  intros Hirr Htrans. induction l as [| x l IH]; intros l' Hl Hl' Hp.
  - now apply Permutation_nil in Hp.
  - destruct l' as [| y l']; [ now apply Permutation_sym, Permutation_nil in Hp | ].
    inversion Hl as [| ? ? Hl1 Hx]; subst. inversion Hl' as [| ? ? Hl2 Hy]; subst.
    rewrite Forall_forall in Hx, Hy.
    assert (x = y).
    { assert (Hxin : In x (y :: l')) by (apply (Permutation_in _ Hp); now left).
      assert (Hyin : In y (x :: l))
        by (apply (Permutation_in _ (Permutation_sym Hp)); now left).
      destruct Hxin as [E | Hxin]; [ now symmetry | ].
      destruct Hyin as [E | Hyin]; [ assumption | ].
      exfalso. apply (Hirr x). eapply Htrans; [ apply Hx | apply Hy ]; assumption. }
    subst y. f_equal. apply IH; auto.
    eapply Permutation_cons_inv; eassumption.
Qed.

(** ** Taking rows *)

Lemma take_values_map vs indices vs' :
  take_values vs indices = Ok vs' ->
  vs' = map (fun i => nth i vs Null) indices
  /\ Forall (fun i => i < length vs) indices.
Proof.
  unfold take_values. rewrite mapM_Forall2.
  induction 1 as [| i v indices' vs'' Hi _ [IH1 IH2]]; cbn [map]; [ auto | ].
  destruct (nth_error vs i) as [u |] eqn:E; [ | discriminate ].
  injection Hi as <-. split.
  - f_equal; [ | assumption ]. symmetry. now apply nth_error_nth.
  - constructor; [ | assumption ]. apply nth_error_Some. congruence.
Qed.

Lemma taken_picked indices c c' :
  taken indices c c' ->
  c' = picked indices c /\ Forall (fun i => i < length (values c)) indices.
Proof.
  intros (Hn & Hd & Hv). apply take_values_map in Hv as [Hv Hi].
  split; [ | assumption ].
  destruct c' as [n d vs]. cbn in *. unfold picked. congruence.
Qed.

Lemma Forall2_In_r {A B} (R : A -> B -> Prop) l l' y :
  Forall2 R l l' -> In y l' -> exists x, In x l /\ R x y.
Proof.
  induction 1 as [| a b l l' Hab _ IH]; [ intros [] | ].
  intros [<- | Hy]; [ exists a; split; [ now left | assumption ] | ].
  destruct (IH Hy) as (x & Hx & Hr). exists x. split; [ now right | assumption ].
Qed.

Lemma take_In t indices s c' :
  take t indices = Ok s -> In c' (columns s) ->
  exists c, In c (columns t) /\ c' = picked indices c
            /\ Forall (fun i => i < length (values c)) indices.
Proof.
  intros H Hin. apply take_spec in H as [_ H].
  destruct (Forall2_In_r _ _ _ _ H Hin) as (c & Hc & Ht).
  apply taken_picked in Ht as [-> Hi]. eauto.
Qed.

Lemma column_unique t n c c0 :
  column t n = Ok c -> In c0 (columns t) -> name c0 = n -> c0 = c.
Proof.
  unfold column, named. intros H Hin Hn.
  assert (Hf : In c0 (filter (fun c => String.eqb (name c) n) (columns t))).
  { apply filter_In. split; [ assumption | now apply String.eqb_eq ]. }
  destruct (filter _ (columns t)) as [| x [| ? ?]]; try discriminate.
  injection H as <-. destruct Hf as [E | []]. now symmetry.
Qed.

Lemma take_column_of t indices s n c' :
  take t indices = Ok s -> column s n = Ok c' ->
  exists c, column t n = Ok c /\ c' = picked indices c
            /\ Forall (fun i => i < length (values c)) indices.
Proof.
  intros H Hc. apply take_spec in H as [_ H]. apply (taken_named indices n) in H.
  unfold column, named in *.
  destruct (filter _ (columns s)) as [| x [| ? ?]]; try discriminate.
  injection Hc as ->.
  inversion H as [| c ? ? l Hc Hl]; subst. inversion Hl; subst.
  exists c. apply taken_picked in Hc as [Hc Hi]. auto.
Qed.

Lemma sort_by_indices t k kc s :
  column t k = Ok kc -> is_nested (dtype kc) = false ->
  sort_by t k = Ok s -> take t (sort_indices (values kc)) = Ok s.
Proof.
  unfold column, sort_by. destruct (named k t) as [| c [| ? ?]]; try discriminate.
  intros [= ->] N. now rewrite (sort_key_indices_scalar _ _ N).
Qed.

Lemma nth_picked (vs : list Value) (p : list nat) i :
  i < length p ->
  nth i (map (fun j => nth j vs Null) p) Null = nth (nth i p 0) vs Null.
Proof.
  intro H. rewrite (nth_indep _ Null (nth 0 vs Null)) by now rewrite length_map.
  apply (map_nth (fun j => nth j vs Null)).
Qed.

Lemma picked_twice p indices c :
  Forall (fun i => i < length p) indices ->
  picked indices (picked p c) = picked (map (fun i => nth i p 0) indices) c.
Proof.
  intro H. unfold picked. cbn [name dtype values]. f_equal.
  rewrite map_map. apply map_ext_in. intros i Hi.
  rewrite Forall_forall in H. now apply nth_picked, H.
Qed.

Lemma picked_values_perm (vs : list Value) p :
  Permutation p (seq 0 (length vs)) ->
  Permutation (map (fun i => nth i vs Null) p) vs.
Proof.
  intro H. rewrite (Permutation_map _ H). now rewrite map_nth_seq.
Qed.

Lemma apart_sym a b : apart a b -> apart b a.
Proof. unfold apart. tauto. Qed.

Lemma tie_free_perm keys keys' :
  Permutation keys keys' -> tie_free keys -> tie_free keys'.
Proof.
  unfold tie_free. induction 1 as [| x l l' Hp IH | x y l | l l' l'' _ IH1 _ IH2];
    intro H; auto.
  - inversion H as [| ? ? Hx Hl]; subst. constructor; [ | auto ].
    now rewrite <- Hp.
  - inversion H as [| ? ? Hy Hl]; subst. inversion Hl as [| ? ? Hx Hl']; subst.
    inversion Hy as [| ? ? Hyx Hy']; subst.
    constructor; [ constructor; [ now apply apart_sym | assumption ] | ].
    now constructor.
Qed.

(** Sorting the reordered column and going back through the reordering gives
    the sorted indices of the column. *)
Lemma sort_indices_reordered keys p :
  tie_free keys -> Permutation p (seq 0 (length keys)) ->
  map (fun i => nth i p 0) (sort_indices (map (fun i => nth i keys Null) p))
  = sort_indices keys.
Proof.
  intros Hfree Hp. set (keys' := map (fun i => nth i keys Null) p).
  assert (Hlen : length keys' = length p) by apply length_map.
  apply (sorted_perm_unique (index_lt keys)).
  - intros x H. unfold index_lt in H. now rewrite key_lt_irrefl in H.
  - intros x y z. apply key_lt_trans.
  - apply StronglySorted_map_In with (R := index_lt keys').
    + intros i j Hi Hj. apply sort_indices_bound in Hi, Hj.
      unfold index_lt, keys'. rewrite !nth_picked by lia. auto.
    + apply sort_indices_sorted.
      apply (tie_free_perm keys); [ | assumption ].
      symmetry. now apply picked_values_perm.
  - now apply sort_indices_sorted.
  - rewrite (Permutation_map _ (sort_indices_perm keys')), Hlen, map_nth_seq.
    rewrite Hp. symmetry. apply sort_indices_perm.
Qed.

Lemma schema_issues_same t1 t2 l1 l2 :
  num_rows t1 = num_rows t2 ->
  (forall c, In c (column_names t1) <-> In c (column_names t2)) ->
  schema_issues t1 t2 l1 l2 = [].
Proof.
  intros Hr Hnames. unfold schema_issues, cols_only_in_1, cols_only_in_2.
  rewrite Hr, Nat.eqb_refl, !difference_nil; [ reflexivity | | ];
    intros x; rewrite !set_In; apply Hnames.
Qed.

(** X14. The order of the rows and of the columns does not matter when the
    sort key tells all rows apart.  A well-formed table whose cells hold no
    NaN and convert to Python objects, compared with a copy whose rows and
    columns are in another order, is found identical, provided that no two
    cells of the column the run sorts by tie in the sort. *)
Theorem reordered_rows_are_identical
    (t t' : Table) (p : list nat) (k : string) (kc : Column) (l1 l2 : string) :
  well_formed t -> cells_convertible t -> nan_free t ->
  reordered p t t' ->
  first_scalar_common t t' k -> column t k = Ok kc -> tie_free (values kc) ->
  exists st, run t t' l1 l2 = (Ok true, st) /\ issues st = [].
Proof.
  intros Hwf Hconv Hnan (Hp & u & Hu & Hrows & Hcols) Hk Hkc Hfree.
  pose proof Hwf as [Hn Hlen].
  rewrite Forall_forall in Hlen.
  unfold cells_convertible, nan_free in Hconv, Hnan.
  rewrite Forall_forall in Hconv, Hnan.
  pose proof (take_spec _ _ _ Hu) as [Hurows Htaken].
  assert (Hplen : length p = num_rows t).
  { rewrite (Permutation_length Hp). apply length_seq. }
  (* the columns of the second table *)
  assert (Hcol' : forall c', In c' (columns t') ->
                    exists c, In c (columns t) /\ c' = picked p c).
  { intros c' Hc'. apply (Permutation_in _ Hcols) in Hc'.
    destruct (take_In _ _ _ _ Hu Hc') as (c & Hc & E & _). eauto. }
  assert (Hnames : Permutation (column_names t') (column_names t)).
  { unfold column_names. rewrite (Permutation_map name Hcols).
    now rewrite (taken_names _ _ _ Htaken). }
  assert (Hwf' : well_formed t').
  { split.
    - apply (Permutation_NoDup (Permutation_sym Hnames) Hn).
    - apply Forall_forall. intros c' Hc'. destruct (Hcol' c' Hc') as (c & Hc & ->).
      cbn [picked values]. rewrite length_map. lia. }
  assert (Hconv' : cells_convertible t').
  { apply Forall_forall. intros c' Hc'. destruct (Hcol' c' Hc') as (c & Hc & ->).
    cbn [picked values]. apply forallb_forall. intros v Hv.
    apply in_map_iff in Hv as (i & <- & Hi).
    assert (Hlt : i < length (values c)).
    { rewrite (Hlen c Hc). apply (Permutation_in _ Hp), in_seq in Hi. lia. }
    specialize (Hconv c Hc). rewrite forallb_forall in Hconv.
    apply Hconv, nth_In, Hlt. }
  assert (Hschema : schema_issues t t' l1 l2 = []).
  { apply schema_issues_same; [ lia | ].
    intro c. split; apply Permutation_in; [ now symmetry | assumption ]. }
  destruct (rows_and_common t t') eqn:Hguard.
  2:{ rewrite (run_skipped t t' l1 l2 Hguard), final_report_run.
      cbn [issues pre_state]. rewrite Hschema. cbn. eauto. }
  apply rows_and_common_true in Hguard as (_ & Hr & Hr').
  pose proof Hk as (Hk1 & Hk2 & Hk3 & _).
  (* the key column on both sides *)
  pose proof Hwf' as [Hn' _].
  destruct (column_of_well_formed t' k Hn' Hk2) as (kc' & Hkc' & Hin' & Hname').
  destruct (Hcol' kc' Hin') as (c0 & Hc0 & E0).
  assert (c0 = kc).
  { apply (column_unique t k); auto. rewrite E0 in Hname'. exact Hname'. }
  subst c0.
  assert (Hscalar : is_nested (dtype kc) = false).
  { destruct Hk3 as (ty & Hty & N). rewrite field_type_column, Hkc in Hty. congruence. }
  assert (Hscalar' : is_nested (dtype kc') = false) by (now rewrite E0).
  destruct (run_compares t t' l1 l2 Hwf Hwf' ltac:(now apply Forall_forall) Hconv' Hr Hr')
    as (k' & s1 & s2 & d & Hfind & Hs1 & Hs2 & Hloop & Hrun).
  { exists k. auto. }
  { intros k' Hk'. rewrite (first_scalar_common_unique _ _ _ _ Hk' Hk).
    apply scalar_in_sortable. exists (dtype kc').
    now rewrite field_type_column, Hkc'. }
  assert (k' = k).
  { eapply first_scalar_common_unique; [ | exact Hk ].
    now apply find_sort_column_first. }
  subst k'.
  (* the two index lists *)
  apply (sort_by_indices _ _ _ _ Hkc Hscalar) in Hs1.
  apply (sort_by_indices _ _ _ _ Hkc' Hscalar') in Hs2.
  assert (Hkeys : length (values kc) = num_rows t).
  { apply Hlen. now apply column_Ok in Hkc. }
  assert (Hidx : map (fun i => nth i p 0) (sort_indices (values kc'))
                 = sort_indices (values kc)).
  { rewrite E0. cbn [picked values]. apply sort_indices_reordered; [ assumption | ].
    now rewrite Hkeys. }
  assert (Hbound : Forall (fun i => i < length p) (sort_indices (values kc'))).
  { apply Forall_forall. intros i Hi. apply sort_indices_bound in Hi.
    rewrite E0 in Hi. cbn [picked values] in Hi. now rewrite length_map in Hi. }
  (* every common column is the same on both sides *)
  destruct (loop_all_equal s1 s2 (sorted (common_cols t t'))) as (d' & Hd' & Hnil).
  { intros c Hc. apply sorted_In, common_cols_In in Hc as [Hc Hc'].
    destruct (column_of_well_formed s1 c) as (col1 & Hcol1 & _).
    { unfold column_names. rewrite (taken_names _ _ _ (proj2 (take_spec _ _ _ Hs1))).
      exact Hn. }
    { unfold column_names. rewrite (taken_names _ _ _ (proj2 (take_spec _ _ _ Hs1))).
      exact Hc. }
    destruct (column_of_well_formed s2 c) as (col2 & Hcol2 & _).
    { unfold column_names. rewrite (taken_names _ _ _ (proj2 (take_spec _ _ _ Hs2))).
      exact Hn'. }
    { unfold column_names. rewrite (taken_names _ _ _ (proj2 (take_spec _ _ _ Hs2))).
      exact Hc'. }
    destruct (take_column_of _ _ _ _ _ Hs1 Hcol1) as (c1 & Hc1 & E1 & _).
    destruct (take_column_of _ _ _ _ _ Hs2 Hcol2) as (c2 & Hc2 & E2 & _).
    pose proof (column_Ok _ _ _ Hc1) as [Hin1 Hname1].
    pose proof (column_Ok _ _ _ Hc2) as [Hin2 Hname2].
    destruct (Hcol' c2 Hin2) as (c3 & Hc3 & E3).
    assert (c3 = c1).
    { apply (column_unique t c); auto. rewrite E3 in Hname2. exact Hname2. }
    subst c3.
    assert (Heq : col2 = col1).
    { rewrite E2, E3, E1, <- Hidx. now apply picked_twice. }
    rewrite Heq in Hcol2. exists col1, col1.
    split; [ exact Hcol1 | split; [ exact Hcol2 | ] ].
    assert (Hsub : forall v, In v (values col1) -> In v (values c1)).
    { intros v Hv. rewrite E1 in Hv. cbn [picked values] in Hv.
      apply in_map_iff in Hv as (i & <- & Hi). apply nth_In.
      rewrite (Hlen c1 Hin1), <- Hkeys. now apply sort_indices_bound. }
    apply columns_equal_refl; eapply forallb_sub; eauto. }
  assert (d' = d) by congruence. subst d'.
  rewrite Hrun, Hschema, Hnil. cbn. eauto.
Qed.

(** The two tables of the example of C1 are one such pair: the rows of the
    first in the order 1, 2, 0, and the columns swapped. *)
Lemma reordered_rows_are_identical_witness :
  exists st, run reordered_1 reordered_2 "A" "B" = (Ok true, st) /\ issues st = [].
Proof.
  apply (reordered_rows_are_identical reordered_1 reordered_2 [1; 2; 0] "id"
           {| name := "id"; dtype := int64; values := [Int 2; Int 1; Null] |} "A" "B").
  - apply well_formedb_ok; reflexivity.
  - repeat constructor.
  - repeat constructor.
  - split.
    + apply Permutation_sym. exact (Permutation_cons_app [1; 2] [] 0 (Permutation_refl _)).
    + eexists. split; [ reflexivity | ]. split; [ reflexivity | ].
      apply perm_swap.
  - split; [ left; reflexivity | ].
    split; [ right; left; reflexivity | ].
    split; [ exists int64; split; reflexivity | ].
    intros c [<- | [<- | []]] _ Hlt; vm_compute in Hlt; discriminate.
  - reflexivity.
  - repeat first [ apply FOP_nil | apply FOP_cons | apply Forall_nil | apply Forall_cons
                 | left; reflexivity | right; reflexivity ].
Defined.

(** With ties in the sort key the order of the rows shows: the stable sort
    leaves the tied rows as they come, and the other columns differ. *)
Lemma tied_rows_are_told_apart :
  reordered [1; 0] tied_1 tied_2
  /\ first_scalar_common tied_1 tied_2 "k"
  /\ fst (run tied_1 tied_2 "A" "B") = Ok false
  /\ issues (snd (run tied_1 tied_2 "A" "B"))
     = [ {| type := "column_values"; message := DifferencesAt "v" 0 |} ].
Proof.
  split; [ | split; [ | split; reflexivity ] ].
  - split.
    + apply perm_swap.
    + eexists. split; [ reflexivity | ]. split; reflexivity.
  - split; [ left; reflexivity | ].
    split; [ left; reflexivity | ].
    split; [ exists int64; split; reflexivity | ].
    intros c [<- | [<- | []]] _ Hlt; vm_compute in Hlt; discriminate.
Qed.
